(** * The deploy pipeline of the zk command-line tool

    A shallow embedding of [deploy], [chooseSmartContract] and [sendGraphQL]
    (lib/helpers.js, CommonJS part) together with the JavaScript primitives
    they rely on, followed by the properties of the pipeline.

    Conventions.
    - A JavaScript string is a [string]: a sequence of code units below 256
      (the Latin-1 part of UTF-16).  [toLowerCase], [trim] and the string to
      number conversion are the ECMAScript ones restricted to that range.
    - A JSON or JavaScript value is a [value].
    - The outside world (files, build, operator, network, cryptography) is a
      record of oracles, [World]; [deploy] threads a trace of observable
      events and may terminate early. *)

From Stdlib Require Import String Ascii List ZArith Bool Lia.
From stdpp Require Import base option list gmap strings.

Import ListNotations.
Local Open Scope string_scope.
Local Open Scope list_scope.

(** ** Characters and strings *)

Module Js.

Definition code (c : ascii) : N := N_of_ascii c.

Definition chars (s : string) : list ascii := list_ascii_of_string s.
Definition str (l : list ascii) : string := string_of_list_ascii l.

(** The double quote and the line feed, for message texts. *)
Definition dq : string := String (ascii_of_N 34) EmptyString.
Definition nl : string := String (ascii_of_N 10) EmptyString.

(** [String.prototype.toLowerCase] on one code unit: A-Z and the Latin-1
    capitals U+00C0..U+00DE (U+00D7, the multiplication sign, apart).  Each
    code unit below 256 lowercases to one code unit; beyond that range
    (U+0130, which lowercases to two code units) the embedding says nothing,
    and no property below is about the length of a lowercased string. *)
Definition is_upper (c : ascii) : bool :=
  let n := code c in
  ((65 <=? n) && (n <=? 90))%N
  || ((192 <=? n) && (n <=? 222) && negb (n =? 215))%N.

Definition lower_char (c : ascii) : ascii :=
  if is_upper c then ascii_of_N (code c + 32) else c.

Fixpoint toLowerCase (s : string) : string :=
  match s with
  | EmptyString => EmptyString
  | String c s' => String (lower_char c) (toLowerCase s')
  end.

Fixpoint has_upper (s : string) : bool :=
  match s with
  | EmptyString => false
  | String c s' => is_upper c || has_upper s'
  end.

(** WhiteSpace and LineTerminator code units: TAB, LF, VT, FF, CR, SP, NBSP. *)
Definition is_space (c : ascii) : bool :=
  let n := code c in
  ((9 <=? n) && (n <=? 13))%N || (n =? 32)%N || (n =? 160)%N.

Fixpoint trim_start (l : list ascii) : list ascii :=
  match l with
  | c :: l' => if is_space c then trim_start l' else l
  | [] => []
  end.

Definition trim_end (l : list ascii) : list ascii :=
  rev (trim_start (rev l)).

(** [String.prototype.trim]. *)
Definition trim (s : string) : string :=
  str (trim_end (trim_start (chars s))).

(** [s.replace(/ /, '')]: the first U+0020 is removed (no g flag). *)
Fixpoint remove_first_space (s : string) : string :=
  match s with
  | EmptyString => EmptyString
  | String c s' =>
      if (code c =? 32)%N then s' else String c (remove_first_space s')
  end.

(** *** String to number: which strings convert to NaN

    [isNaN(val)] on a string applies StringToNumber: surrounding white space
    is dropped, the empty rest is 0, and the rest is otherwise NaN unless it
    is a StrNumericLiteral. *)

Definition is_digit (c : ascii) : bool :=
  let n := code c in ((48 <=? n) && (n <=? 57))%N.

Definition is_bin_digit (c : ascii) : bool :=
  let n := code c in ((48 <=? n) && (n <=? 49))%N.

Definition is_oct_digit (c : ascii) : bool :=
  let n := code c in ((48 <=? n) && (n <=? 55))%N.

Definition is_hex_digit (c : ascii) : bool :=
  let n := code c in
  ((48 <=? n) && (n <=? 57))%N
  || ((65 <=? n) && (n <=? 70))%N
  || ((97 <=? n) && (n <=? 102))%N.

Definition nonempty_all (p : ascii -> bool) (l : list ascii) : bool :=
  match l with
  | [] => false
  | _ :: _ => forallb p l
  end.

Fixpoint skip_digits (l : list ascii) : list ascii :=
  match l with
  | c :: l' => if is_digit c then skip_digits l' else l
  | [] => []
  end.

Definition starts_with_digit (l : list ascii) : bool :=
  match l with
  | c :: _ => is_digit c
  | [] => false
  end.

(** SignedInteger ::: DecimalDigits | + DecimalDigits | - DecimalDigits *)
Definition signed_integer (l : list ascii) : bool :=
  match l with
  | c :: l' =>
      if ((code c =? 43) || (code c =? 45))%N
      then nonempty_all is_digit l'
      else nonempty_all is_digit l
  | [] => false
  end.

(** ExponentPart, optional: nothing, or e/E followed by a SignedInteger. *)
Definition exponent_opt (l : list ascii) : bool :=
  match l with
  | [] => true
  | c :: l' => ((code c =? 101) || (code c =? 69))%N && signed_integer l'
  end.

(** StrUnsignedDecimalLiteral. *)
Definition unsigned_decimal (l : list ascii) : bool :=
  if String.eqb (str l) "Infinity" then true
  else
    let r := skip_digits l in
    match r with
    | c :: r' =>
        if (code c =? 46)%N
        then (starts_with_digit l || starts_with_digit r')
             && exponent_opt (skip_digits r')
        else starts_with_digit l && exponent_opt r
    | [] => starts_with_digit l
    end.

(** NonDecimalIntegerLiteral: 0b, 0o, 0x (either case) and digits. *)
Definition non_decimal (l : list ascii) : bool :=
  match l with
  | z :: p :: ds =>
      (code z =? 48)%N &&
      (if ((code p =? 98) || (code p =? 66))%N then nonempty_all is_bin_digit ds
       else if ((code p =? 111) || (code p =? 79))%N then nonempty_all is_oct_digit ds
       else if ((code p =? 120) || (code p =? 88))%N then nonempty_all is_hex_digit ds
       else false)
  | _ => false
  end.

(** StrNumericLiteral. *)
Definition numeric_literal (l : list ascii) : bool :=
  non_decimal l ||
  match l with
  | c :: l' =>
      if ((code c =? 43) || (code c =? 45))%N
      then unsigned_decimal l'
      else unsigned_decimal l
  | [] => false
  end.

(** [isNaN(s)] for a string [s]. *)
Definition isNaN (s : string) : bool :=
  match trim_end (trim_start (chars s)) with
  | [] => false
  | l => negb (numeric_literal l)
  end.

End Js.

(** ** JavaScript values *)

#[warnings="-register-all"] Inductive value : Type :=
| VUndefined
| VNull
| VBool (b : bool)
| VNum (n : Z)
| VStr (s : string)
| VArr (items : list value)
| VObj (fields : list (string * value))
| VErr (name message : string).

(** ToBoolean. *)
Definition truthy (v : value) : bool :=
  match v with
  | VUndefined | VNull => false
  | VBool b => b
  | VNum n => negb (n =? 0)%Z
  | VStr s => negb (String.eqb s EmptyString)
  | VArr _ | VObj _ | VErr _ _ => true
  end.

Fixpoint assoc (k : string) (fields : list (string * value)) : value :=
  match fields with
  | [] => VUndefined
  | (k', v) :: rest => if String.eqb k k' then v else assoc k rest
  end.

Definition TypeError (k : string) (v : string) : value :=
  VErr "TypeError"
    ("Cannot read properties of " +:+ v +:+ " (reading '" +:+ k +:+ "')").

(** Property read [v.k]: throws on undefined and null.  Only data property
    names are read by the pipeline, none of which a primitive, an array or an
    Error object carries. *)
Definition get (v : value) (k : string) : value + value :=
  match v with
  | VUndefined => inl (TypeError k "undefined")
  | VNull => inl (TypeError k "null")
  | VObj fields => inr (assoc k fields)
  | VErr n m =>
      inr (if String.eqb k "name" then VStr n
           else if String.eqb k "message" then VStr m
           else VUndefined)
  | VBool _ | VNum _ | VStr _ | VArr _ => inr VUndefined
  end.

(** Optional chaining [v?.k]. *)
Definition get_opt (v : value) (k : string) : value :=
  match get v k with
  | inl _ => VUndefined
  | inr x => x
  end.

(** Strict equality with a string, [v === s]. *)
Definition strict_eq_str (v : value) (s : string) : bool :=
  match v with
  | VStr s' => String.eqb s' s
  | _ => false
  end.

(** Template-literal conversion of a value to a string. *)
Fixpoint display (v : value) : string :=
  match v with
  | VUndefined => "undefined"
  | VNull => "null"
  | VBool true => "true"
  | VBool false => "false"
  | VNum n => pretty.pretty n
  | VStr s => s
  | VArr items =>
      (fix join (l : list value) : string :=
         match l with
         | [] => EmptyString
         | x :: rest =>
             let e := match x with
                      | VUndefined | VNull => EmptyString
                      | _ => display x
                      end in
             match rest with
             | [] => e
             | _ :: _ => e +:+ "," +:+ join rest
             end
         end) items
  | VObj _ => "[object Object]"
  | VErr n m => n +:+ ": " +:+ m
  end.

(** ** Configuration, key files, network *)

(** One entry of [config.networks]; an absent property is [None]. *)
Record network_entry : Type := {
  url : option string;
  keyPath : option string;
  smartContract : option string;
}.

(** A [config.json] that holds a [networks] object, as far as deploy reads
    it: the own properties of that object.  A [config.json] without one is
    [ReadNoNetworks] below. *)
Record config : Type := {
  networks : gmap string network_entry;
}.

(** The properties every object inherits from [Object.prototype]: the
    functions of the prototype and, for [__proto__], the prototype itself.
    All of them are truthy, and none has a [url] or a [smartContract]. *)
Definition inherited (k : string) : bool :=
  bool_decide (k ∈ ["constructor"; "__proto__"; "hasOwnProperty";
                    "isPrototypeOf"; "propertyIsEnumerable"; "toLocaleString";
                    "toString"; "valueOf"; "__defineGetter__";
                    "__defineSetter__"; "__lookupGetter__"; "__lookupSetter__"]).

Definition inherited_entry : network_entry :=
  {| url := None; keyPath := None; smartContract := None |}.

(** [config.networks[network]], a property read: the own property, else the
    inherited one, else undefined. *)
Definition alias_entry (c : config) (network : string) : option network_entry :=
  match networks c !! network with
  | Some entry => Some entry
  | None => if inherited network then Some inherited_entry else None
  end.

(** Truthiness of an optional string property. *)
Definition truthy_prop (p : option string) : bool :=
  match p with
  | Some s => negb (String.eqb s EmptyString)
  | None => false
  end.

(** [fs.readJSONSync(`${DIR}/config.json`)]: the file parsed, with a
    [networks] object or without one (the file [{}], or one that keeps its
    aliases under [deployAliases], as lib/config.js allows), or the error
    thrown. *)
Inductive config_read : Type :=
| ReadOk (c : config)
| ReadNoNetworks
| ReadENOENT
| ReadError (err : value).

(** A key file, JSON [{privateKey, publicKey}]. *)
Record keyfile : Type := {
  privateKey : string;
  publicKey : string;
}.

(** The GraphQL documents built by [getAccountQuery] and [sendZkAppQuery],
    by what is interpolated into their text. *)
Inductive query : Type :=
| AccountQuery (publicKey : string)
| ZkAppMutation (parties : string).

Definition getAccountQuery (publicKey : string) : query := AccountQuery publicKey.
Definition sendZkAppQuery (partiesJson : string) : query := ZkAppMutation partiesJson.

Definition is_mutation (q : query) : bool :=
  match q with
  | ZkAppMutation _ => true
  | AccountQuery _ => false
  end.

Record http_response : Type := {
  status : Z;
  statusText : string;
  body : option value;   (* [None]: the body is not JSON, [response.json()] rejects *)
}.

(** [response.ok]: a status in 200..299. *)
Definition ok (r : http_response) : bool :=
  ((200 <=? status r) && (status r <? 300))%Z.

(** What the remote end does with one request, on a clock in milliseconds
    started when the request is issued. *)
Inductive network_behaviour : Type :=
| Responds (ms : N) (r : http_response)  (* response and body received at [ms] *)
| Fails (ms : N) (err : value)           (* fetch rejects at [ms]: DNS, refused, ... *)
| Hangs.                                 (* nothing ever arrives *)

Definition AbortError : value := VErr "AbortError" "The user aborted a request.".
Definition SyntaxError : value := VErr "SyntaxError" "Unexpected token in JSON".

(** [fetch] with an [AbortController] signal fired by a timer after
    [timeout] ms: whatever has not completed by then rejects with AbortError. *)
Definition fetch (timeout : N) (b : network_behaviour) : value + http_response :=
  match b with
  | Responds ms r => if (ms <? timeout)%N then inr r else inl AbortError
  | Fails ms err => if (ms <? timeout)%N then inl err else inl AbortError
  | Hangs => inl AbortError
  end.

Definition error_result (fields : list (string * value)) : value :=
  VObj (("kind", VStr "error") :: fields).

(** The delay of the timer of [sendGraphQL], in milliseconds (line 458). *)
Definition timeout_ms : N := 20000.

(** [sendGraphQL], lines 454-485: the value the returned promise resolves
    to.  The function never rejects: every throw inside [try] is caught. *)
Definition sendGraphQL (b : network_behaviour) : value :=
  match fetch timeout_ms b with
  | inl error => error_result [("message", error)]
  | inr response =>
      match body response with
      | None => error_result [("message", SyntaxError)]
      | Some responseJson =>
          if negb (ok response) then
            match get responseJson "errors" with
            | inl error => error_result [("message", error)]
            | inr errors =>
                error_result [("statusCode", VNum (status response));
                              ("statusText", VStr (statusText response));
                              ("message", errors)]
            end
          else responseJson
      end
  end.

(** [config.networks[network]?.smartContract]; an inherited property has no
    [smartContract], as an absent one. *)
Definition recorded (c : config) (network : string) : option string :=
  match networks c !! network with
  | Some entry => smartContract entry
  | None => None
  end.

(** [chooseSmartContract], lines 421-435.  The result is a string; the empty
    string is the falsy result. *)
Definition chooseSmartContract
    (c : config) (smartContracts : list string) (network : string) : string :=
  if truthy_prop (recorded c network) then
    default EmptyString (recorded c network)
  else if (length smartContracts =? 1)%nat then
    default EmptyString (smartContracts !! 0%nat)
  else EmptyString.

(** ** Observable events and the pipeline monad *)

(** The [feePayer] object handed to [client.signTransaction]. *)
Record feePayerDeploy : Type := {
  feePayer : string;
  nonce : value;
  fee : string;
  memo : string;
}.

Inductive event : Type :=
| Log (msg : string)                      (* console.log, console.error *)
| StepOk (name : string)                  (* spinner succeeded *)
| StepFail (name : string)                (* spinner failed, error printed *)
| Select (choices : list string)          (* select prompt requested *)
| Input (name : string)                   (* input prompt shown *)
| Rejected (name : string) (msg : string) (* validation message, prompt stays open *)
| ReadKey (path : string)                 (* key file read *)
| WriteConfig (c : config)                (* config.json rewritten *)
| Sign (fp : feePayerDeploy) (key : string) (* client.signTransaction called *)
| Request (endpoint : string) (q : query) (timeout : N). (* fetch issued *)

Inductive outcome : Type :=
| Returned                 (* deploy returned *)
| Exited (code : Z)        (* process.exit *)
| Cancelled                (* a prompt was cancelled: the promise rejects *)
| Threw (err : string).    (* an uncaught exception *)

(** A computation emits events and yields a value or stops early. *)
Definition M (A : Type) : Type := list event * (A + outcome).

Definition ret {A} (a : A) : M A := ([], inl a).

Definition bind {A B} (m : M A) (k : A -> M B) : M B :=
  match m with
  | (t, inl a) => let '(t', r) := k a in (t ++ t', r)
  | (t, inr o) => (t, inr o)
  end.

Definition emit (e : event) : M unit := ([e], inl tt).
Definition halt {A} (o : outcome) : M A := ([], inr o).
Definition log (msg : string) : M unit := emit (Log msg).

Declare Scope pipeline_scope.
Delimit Scope pipeline_scope with pipeline.
Notation "'let*' x := m 'in' k" := (bind m (fun x => k))
  (at level 10, x name, m at level 100, k at level 200) : pipeline_scope.
Notation "m ;;; k" := (bind m (fun _ => k))
  (at level 100, k at level 200, right associativity) : pipeline_scope.
Local Open Scope pipeline_scope.

Definition run (m : M unit) : list event * outcome :=
  match m with
  | (t, inl _) => (t, Returned)
  | (t, inr o) => (t, o)
  end.

Definition trace {A} (r : list event * A) : list event := fst r.

(** [step(str, fn)], lines 12-26: the spinner succeeds with the result of
    [fn], or fails, prints the error and exits with code 1. *)
Definition step {A} (name : string) (fn : M (option A)) : M A :=
  let* result := fn in
  match result with
  | Some a => emit (StepOk name) ;;; ret a
  | None => emit (StepFail name) ;;; halt (Exited 1)
  end.

(** The answer of an enquirer prompt whose text is [input] and whose
    [result] callback returned [value]: the prompt's value is the first
    truthy one of the value set and the input, so that an empty result gives
    the input back as it was entered.  (With both empty the answer is the
    prompt's [initial], undefined here; no prompt of deploy gets there: the
    fee and nonce prompts refuse an empty text, and the confirmation's result
    is never empty.) *)
Definition answer (input value : string) : string :=
  if String.eqb value EmptyString then input else value.

(** An enquirer input prompt: each submitted text goes through [validate];
    a message keeps the prompt open for the next entry, with no bound on the
    number of entries; the first valid entry goes through [result], and the
    prompt answers with [answer].  The operator's entries are [entries];
    when they run out the prompt is cancelled. *)
Fixpoint prompt_input (name : string)
    (validate : string -> option string) (result : string -> M string)
    (entries : list string) : M string :=
  match entries with
  | [] => halt Cancelled
  | val :: rest =>
      match validate val with
      | Some msg => emit (Rejected name msg) ;;; prompt_input name validate result rest
      | None => let* value := result val in ret (answer val value)
      end
  end.

(** The [validate] and [result] callbacks of the fee prompt, lines 253-258. *)
Definition fee_validate (val : string) : option string :=
  if String.eqb val EmptyString then Some "Fee is required."
  else if Js.isNaN val then Some "Fee must be a number."
  else None.

Definition fee_result (val : string) : string :=
  Js.remove_first_space (Js.trim val).

(** The callbacks of the nonce prompt, lines 282-287. *)
Definition nonce_validate (val : string) : option string :=
  if String.eqb val EmptyString then Some "Nonce is required."
  else if Js.isNaN val then Some "Nonce must be a number."
  else None.

Definition nonce_result (val : string) : string :=
  Js.remove_first_space (Js.trim val).

(** The [result] callback of the confirmation prompt, lines 345-354. *)
Definition confirm_result (val : string) : M string :=
  let val := Js.toLowerCase val in
  if negb (String.eqb val "yes" || String.eqb val "y") then
    log "  Aborted. Transaction not sent." ;;; halt (Exited 0)
  else ret val.

Arguments bind {A B} m k : simpl never.

(** ** The outside world *)

Record World : Type := {
  w_config : config_read;                 (* config.json on disk *)
  w_build : bool;                         (* [npm run build] succeeds *)
  w_smartContracts : option (list string);(* [findSmartContracts], or a throw *)
  w_select : list string -> option string;(* the operator's selection, or cancel *)
  w_import : string -> option (list string);
    (* [findSmartContractToDeploy] and [import]: the exported names, or a throw *)
  w_files : string -> option keyfile;     (* the key files under DIR *)
  w_toPublicKey : string -> option string;(* PrivateKey.fromBase58(..).toPublicKey() *)
  w_compile : string -> string -> option string;           (* zkApp.compile *)
  w_deployTx : string -> string -> string -> option string;(* the contract's deploy *)
  w_fee : list string;                    (* entries at the fee prompt *)
  w_derivePublicKey : string -> string;   (* client.derivePublicKey *)
  w_net : string -> query -> network_behaviour;
  w_nonce : list string;                  (* entries at the nonce prompt *)
  w_sign : string -> feePayerDeploy -> string -> option string;
    (* client.signTransaction: [data.parties] of the signed payment *)
  w_confirm : list string;                (* entries at the confirmation prompt *)
}.

(** Worlds that differ from [w] in one oracle. *)
Definition with_config (w : World) (r : config_read) : World :=
  {| w_config := r; w_build := w_build w;
     w_smartContracts := w_smartContracts w; w_select := w_select w;
     w_import := w_import w; w_files := w_files w;
     w_toPublicKey := w_toPublicKey w; w_compile := w_compile w;
     w_deployTx := w_deployTx w; w_fee := w_fee w;
     w_derivePublicKey := w_derivePublicKey w; w_net := w_net w;
     w_nonce := w_nonce w; w_sign := w_sign w; w_confirm := w_confirm w |}.

Definition with_smartContracts (w : World) (found : list string) : World :=
  {| w_config := w_config w; w_build := w_build w;
     w_smartContracts := Some found; w_select := w_select w;
     w_import := w_import w; w_files := w_files w;
     w_toPublicKey := w_toPublicKey w; w_compile := w_compile w;
     w_deployTx := w_deployTx w; w_fee := w_fee w;
     w_derivePublicKey := w_derivePublicKey w; w_net := w_net w;
     w_nonce := w_nonce w; w_sign := w_sign w; w_confirm := w_confirm w |}.

Definition with_files (w : World) (files : string -> option keyfile) : World :=
  {| w_config := w_config w; w_build := w_build w;
     w_smartContracts := w_smartContracts w; w_select := w_select w;
     w_import := w_import w; w_files := files;
     w_toPublicKey := w_toPublicKey w; w_compile := w_compile w;
     w_deployTx := w_deployTx w; w_fee := w_fee w;
     w_derivePublicKey := w_derivePublicKey w; w_net := w_net w;
     w_nonce := w_nonce w; w_sign := w_sign w; w_confirm := w_confirm w |}.

Definition with_fee (w : World) (entries : list string) : World :=
  {| w_config := w_config w; w_build := w_build w;
     w_smartContracts := w_smartContracts w; w_select := w_select w;
     w_import := w_import w; w_files := w_files w;
     w_toPublicKey := w_toPublicKey w; w_compile := w_compile w;
     w_deployTx := w_deployTx w; w_fee := entries;
     w_derivePublicKey := w_derivePublicKey w; w_net := w_net w;
     w_nonce := w_nonce w; w_sign := w_sign w; w_confirm := w_confirm w |}.

Definition with_net (w : World) (net : string -> query -> network_behaviour)
  : World :=
  {| w_config := w_config w; w_build := w_build w;
     w_smartContracts := w_smartContracts w; w_select := w_select w;
     w_import := w_import w; w_files := w_files w;
     w_toPublicKey := w_toPublicKey w; w_compile := w_compile w;
     w_deployTx := w_deployTx w; w_fee := w_fee w;
     w_derivePublicKey := w_derivePublicKey w; w_net := net;
     w_nonce := w_nonce w; w_sign := w_sign w; w_confirm := w_confirm w |}.

Definition with_nonce (w : World) (entries : list string) : World :=
  {| w_config := w_config w; w_build := w_build w;
     w_smartContracts := w_smartContracts w; w_select := w_select w;
     w_import := w_import w; w_files := w_files w;
     w_toPublicKey := w_toPublicKey w; w_compile := w_compile w;
     w_deployTx := w_deployTx w; w_fee := w_fee w;
     w_derivePublicKey := w_derivePublicKey w; w_net := w_net w;
     w_nonce := entries; w_sign := w_sign w; w_confirm := w_confirm w |}.

Definition with_confirm (w : World) (entries : list string) : World :=
  {| w_config := w_config w; w_build := w_build w;
     w_smartContracts := w_smartContracts w; w_select := w_select w;
     w_import := w_import w; w_files := w_files w;
     w_toPublicKey := w_toPublicKey w; w_compile := w_compile w;
     w_deployTx := w_deployTx w; w_fee := w_fee w;
     w_derivePublicKey := w_derivePublicKey w; w_net := w_net w;
     w_nonce := w_nonce w; w_sign := w_sign w; w_confirm := entries |}.

Definition DEFAULT_GRAPHQL : string :=
  "https://proxy.berkeley.minaexplorer.com/graphql".

(** The call [await sendGraphQL(graphQLEndpoint, query)] inside deploy: the
    request is issued and the promise resolves to [sendGraphQL]'s value. *)
Definition call_sendGraphQL (w : World) (graphQLEndpoint : string) (q : query)
  : M value :=
  emit (Request graphQLEndpoint q timeout_ms) ;;;
  ret (sendGraphQL (w_net w graphQLEndpoint q)).

(** [v.k1.k2...] inside a [try]: the value read, or the error thrown. *)
Fixpoint get_path (v : value) (ks : list string) : value + value :=
  match ks with
  | [] => inr v
  | k :: ks' =>
      match get v k with
      | inl err => inl err
      | inr v' => get_path v' ks'
      end
  end.

Definition set_smartContract
    (c : config) (network : string) (entry : network_entry) (name : string)
  : config :=
  {| networks :=
       <[network := {| url := url entry; keyPath := keyPath entry;
                       smartContract := Some name |}]> (networks c) |}.

Definition msg_config_contract (name : string) : string :=
  "  The '" +:+ name +:+ "' smart contract will be used" +:+ Js.nl +:+
  "  for this network as specified in config.json.".

Definition msg_only_contract (name : string) : string :=
  "  Only one smart contract exists in the project: " +:+ name.

Definition msg_config_updated : string :=
  "  Your config.json was updated to always use this" +:+ Js.nl +:+
  "  smart contract when deploying to this network.".

Definition msg_not_in_build (name : string) : string :=
  "  Failed to find the " +:+ Js.dq +:+ name +:+ Js.dq +:+
  " smart contract in your build directory." +:+ Js.nl +:+
  " Please confirm that your config.json contains the name of the smart contract that you desire to deploy to this network alias.".

Definition msg_not_exported (name : string) : string :=
  "  Failed to find the " +:+ Js.dq +:+ name +:+ Js.dq +:+
  " smart contract in your build directory." +:+ Js.nl +:+
  " Check that you have exported your smart contract class using a named export and try again.".

Definition msg_no_key : string :=
  "  Failed to find the the zkapp private key." +:+ Js.nl +:+
  "  Please make sure your config.json has the correct 'keyPath' property.".

Definition msg_failed : string :=
  "  Failed to send transaction to relayer. Please try again.".

Definition msg_success (hash : string) : string :=
  Js.nl +:+ "Success! Deploy transaction sent." +:+
  Js.nl +:+
  Js.nl +:+ "Next step:" +:+
  Js.nl +:+ "  Your smart contract will be live (or updated)" +:+
  Js.nl +:+ "  as soon as the transaction is included in a block:" +:+
  Js.nl +:+ "  https://berkeley.minaexplorer.com/transaction/" +:+ hash.

(** ** deploy, lines 70-392

    The body of [deploy] is one sequence; it is cut here into its commented
    blocks, each with the line range it embeds. *)

(** Lines 121-162: identify which smart contract should be deployed. *)
Definition identifyContract
    (w : World) (c : config) (smartContracts : list string) (network : string)
  : M string :=
  let contractName := chooseSmartContract c smartContracts network in
  if negb (truthy (VStr contractName)) then
    emit (Select smartContracts) ;;;
    match smartContracts with
    | [] =>
        (* enquirer refuses a select prompt without choices before it shows
           anything *)
        halt (Threw "At least one choice must be selectable")
    | _ :: _ =>
        match w_select w smartContracts with
        | Some name => ret name
        | None => halt Cancelled
        end
    end
  else
    step "Choose smart contract" (ret (Some tt)) ;;;
    (if truthy_prop (recorded c network) then
       log (msg_config_contract (default EmptyString (recorded c network)))
     else
       log (msg_only_contract (default "undefined" (smartContracts !! 0%nat)))) ;;;
    ret contractName.

(** Lines 164-174: set the default smartContract name in config.json. *)
Definition setDefaultContract
    (c : config) (network : string) (entry : network_entry) (contractName : string)
  : M config :=
  if negb (bool_decide (recorded c network = Some contractName)) then
    let c' := set_smartContract c network entry contractName in
    emit (WriteConfig c') ;;;
    log msg_config_updated ;;;
    ret c'
  else ret c.

(** Lines 267-290: the nonce, from the account query or from the operator. *)
Definition resolveNonce (w : World) (graphQLEndpoint feePayer : string) : M value :=
  let accountQuery := getAccountQuery feePayer in
  let* response := call_sendGraphQL w graphQLEndpoint accountQuery in
  let found := get_opt (get_opt (get_opt response "data") "account") "nonce" in
  if truthy found then ret found
  else
    emit (Input "nonce") ;;;
    let* entered :=
      prompt_input "nonce" nonce_validate
        (fun val => ret (nonce_result val)) (w_nonce w) in
    ret (VStr entered).

(** What the blocks after signing still use. *)
Record prepared : Type := {
  graphQLEndpoint : string;
  signedParties : string;   (* [signedPayment.data.parties] *)
}.

(** Lines 70-308: from reading config.json to the signed transaction. *)
Definition prepare (w : World) (network : string) : M prepared :=
  (* 74-87 *)
  let* config :=
    match w_config w with
    | ReadOk c => ret c
    | ReadNoNetworks =>
        (* 91: [config.networks] is undefined, reading a property of it
           throws *)
        halt (Threw "TypeError")
    | ReadENOENT =>
        log "config.json not found. Make sure you're in a zkApp project." ;;;
        halt Returned
    | ReadError err =>
        log (display err) ;;;
        log "Unable to read config.json." ;;;
        halt Returned
    end in
  (* 89 *)
  let network := Js.toLowerCase network in
  (* 91-95 *)
  let* entry :=
    match alias_entry config network with
    | Some entry => ret entry
    | None =>
        log "Network name not found in config.json." ;;;
        log "You can add a network by running `zk config`." ;;;
        halt Returned
    end in
  (* 97-101 *)
  (if negb (truthy_prop (url entry)) then
     log "No 'url' property is specified for this network in config.json." ;;;
     log "Please correct your config.json and try again." ;;;
     halt Returned
   else ret tt) ;;;
  (* 103-119 *)
  step "Build project" (ret (if w_build w then Some tt else None)) ;;;
  let* smartContracts := step "Generate build.json" (ret (w_smartContracts w)) in
  (* 121-174 *)
  let* contractName := identifyContract w config smartContracts network in
  let* config := setDefaultContract config network entry contractName in
  (* 176-205 *)
  let* smartContractImports :=
    match w_import w contractName with
    | Some exports => ret exports
    | None => log (msg_not_in_build contractName) ;;; halt Returned
    end in
  (if negb (bool_decide (contractName ∈ smartContractImports)) then
     log (msg_not_exported contractName) ;;; halt Returned
   else ret tt) ;;;
  (* 207-218 *)
  let path := "keys/" +:+ network +:+ ".json" in
  emit (ReadKey path) ;;;
  let* privateKey :=
    match w_files w path with
    | Some file => ret (privateKey file)
    | None => log msg_no_key ;;; halt Returned
    end in
  (* 220-243 *)
  let* zkAppAddress :=
    match w_toPublicKey w privateKey with
    | Some address => ret address
    | None => halt (Threw "PrivateKey.fromBase58")
    end in
  let* verificationKey :=
    step "Generate verification key"
      (ret (w_compile w contractName zkAppAddress)) in
  let* partiesJsonDeploy :=
    step "Build transaction"
      (ret (w_deployTx w contractName privateKey verificationKey)) in
  (* 245-262 *)
  emit (Input "fee") ;;;
  let* fee :=
    prompt_input "fee" fee_validate (fun val => ret (fee_result val)) (w_fee w) in
  (if negb (truthy (VStr fee)) then halt Returned else ret tt) ;;;
  (* 264-290 *)
  let feePayer := w_derivePublicKey w privateKey in
  let graphQLEndpoint :=
    default DEFAULT_GRAPHQL
      (match alias_entry config network with
       | Some entry => url entry
       | None => None
       end) in
  let* nonce := resolveNonce w graphQLEndpoint feePayer in
  (* 291-302 *)
  let feePayerDeploy :=
    {| feePayer := feePayer; nonce := nonce;
       fee := fee +:+ "000000000"; memo := EmptyString |} in
  let* signedParties :=
    step "Sign transaction"
      (emit (Sign feePayerDeploy privateKey) ;;;
       ret (w_sign w partiesJsonDeploy feePayerDeploy privateKey)) in
  ret {| graphQLEndpoint := graphQLEndpoint; signedParties := signedParties |}.

(** Lines 310-358: the confirmation, [--yes] or the operator's answer. *)
Definition confirmation (w : World) (yes : bool) : M string :=
  if yes then ret "yes"
  else
    emit (Input "confirm") ;;;
    prompt_input "confirm" (fun _ => None) confirm_result (w_confirm w).

(** Lines 363-391: send the transaction and report. *)
Definition send (w : World) (p : prepared) : M unit :=
  let* txn :=
    step "Send to network"
      (let zkAppMutation := sendZkAppQuery (signedParties p) in
       let* sent := call_sendGraphQL w (graphQLEndpoint p) zkAppMutation in
       match get_path sent ["data"; "sendZkapp"; "zkapp"] with
       | inr zkapp => ret (Some zkapp)
       | inl error => ret (Some error)
       end) in
  if negb (truthy txn) || strict_eq_str (get_opt txn "kind") "error" then
    log msg_failed ;;; halt Returned
  else
    log (msg_success (display (get_opt txn "hash"))).

Definition deploy (w : World) (network : string) (yes : bool)
  : list event * outcome :=
  run (
    let* p := prepare w network in
    let* confirm := confirmation w yes in
    (* 360-361: the fail safe *)
    (if negb (String.eqb confirm "yes" || String.eqb confirm "y")
     then halt Returned else ret tt) ;;;
    send w p
  ).

(** ** Predicates on traces *)

(** Every event a computation emits satisfies [P]. *)
Definition always (P : event -> Prop) {A} (m : M A) : Prop := Forall P (fst m).

(** The entry an input prompt accepts: the first one that validates. *)
Fixpoint first_valid (validate : string -> option string) (entries : list string)
  : option string :=
  match entries with
  | [] => None
  | val :: rest =>
      match validate val with
      | Some _ => first_valid validate rest
      | None => Some val
      end
  end.

(** The validation messages shown for a run of entries. *)
Definition rejections (name : string) (validate : string -> option string)
    (entries : list string) : list event :=
  flat_map (fun val => match validate val with
                       | Some msg => [Rejected name msg]
                       | None => []
                       end) entries.

(** The printed cause of the two early returns of lines 91-101. *)
Definition msgs_alias_not_found : list event :=
  [ Log "Network name not found in config.json.";
    Log "You can add a network by running `zk config`." ].

Definition msgs_no_url : list event :=
  [ Log "No 'url' property is specified for this network in config.json.";
    Log "Please correct your config.json and try again." ].

(** The alias is unusable: absent, or present with an empty or missing url. *)
Definition alias_unusable (c : config) (alias : string) : Prop :=
  match networks c !! alias with
  | None => True
  | Some entry => truthy_prop (url entry) = false
  end.

(** A console line. *)
Definition is_log (e : event) : Prop := exists msg, e = Log msg.

(** Any event but a request carrying the zkapp mutation. *)
Definition not_submission (e : event) : Prop :=
  forall endpoint q t, e = Request endpoint q t -> is_mutation q = false.

(** What the confirmation block emits on a refusal. *)
Definition aborted : list event :=
  [Input "confirm"; Log "  Aborted. Transaction not sent."].

(** No U+0020. *)
Definition no_sp (c : ascii) : bool := negb (Js.code c =? 32)%N.

(** What a [Sign] event says of the fee: the prompt's answer for the
    accepted entry, whose result is the entry trimmed, then nine zeros. *)
Definition fee_from_entry (w : World) (e : event) : Prop :=
  forall fp key, e = Sign fp key ->
  exists f, first_valid fee_validate (w_fee w) = Some f
            /\ fee fp = answer f (Js.trim f) +:+ "000000000".

(** The trace holds an account query, issued with the 20 s timer. *)
Definition asks_for_account (t : list event) : Prop :=
  exists endpoint pk, In (Request endpoint (AccountQuery pk) 20000) t.

(** Neither the select prompt nor a rewrite of config.json. *)
Definition quiet (e : event) : Prop :=
  (forall choices, e <> Select choices) /\ (forall c, e <> WriteConfig c).

(** The remote end has not completed by the time the timer fires. *)
Definition exceeds_bound (b : network_behaviour) : Prop :=
  match b with
  | Responds ms _ | Fails ms _ => (timeout_ms < ms)%N
  | Hangs => True
  end.

(** A request is issued with the 20 s timer. *)
Definition bounded_request (e : event) : Prop :=
  forall endpoint q t, e = Request endpoint q t -> t = 20000%N.

(** A key file read is that of keys/<alias>.json. *)
Definition reads_alias_key (network : string) (e : event) : Prop :=
  forall path, e = ReadKey path ->
  path = "keys/" +:+ Js.toLowerCase network +:+ ".json".

(** A validation message was shown. *)
Definition is_rejection (e : event) : bool :=
  match e with
  | Rejected _ _ => true
  | _ => false
  end.

(** The submission requests of a trace, counted. *)
Definition is_submission (e : event) : bool :=
  match e with
  | Request _ q _ => is_mutation q
  | _ => false
  end.

Definition submissions (t : list event) : nat :=
  length (List.filter is_submission t).

(** ** A concrete world: the end-to-end scenario *)

Module Scenario.

Definition entry : network_entry :=
  {| url := Some "https://example/graphql";
     keyPath := Some "keys/testnet.json";
     smartContract := None |}.

Definition cfg : config := {| networks := {[ "testnet" := entry ]} |}.

Definition json_ok (v : value) : http_response :=
  {| status := 200; statusText := "OK"; body := Some v |}.

Definition nonce_reply (n : value) : value :=
  VObj [("data", VObj [("account",
     VObj [("publicKey", VStr "pub:KEY"); ("nonce", n)])])].

Definition zkapp_reply (hash : string) : value :=
  VObj [("data", VObj [("sendZkapp",
     VObj [("zkapp", VObj [("id", VStr "id1"); ("hash", VStr hash)])])])].

Definition net (nonce_r submit_r : network_behaviour)
    (endpoint : string) (q : query) : network_behaviour :=
  match q with
  | AccountQuery _ => nonce_r
  | ZkAppMutation _ => submit_r
  end.

Definition files (path : string) : option keyfile :=
  if String.eqb path "keys/testnet.json"
  then Some {| privateKey := "KEY"; publicKey := "pub:KEY" |}
  else None.

Definition world : World :=
  {| w_config := ReadOk cfg;
     w_build := true;
     w_smartContracts := Some ["Foo"];
     w_select := fun choices => head choices;
     w_import := fun name => Some [name; "deploy"; "isReady"; "shutdown"];
     w_files := files;
     w_toPublicKey := fun key => Some ("pub:" +:+ key);
     w_compile := fun name address => Some ("vk:" +:+ name);
     w_deployTx := fun name key vk => Some ("parties:" +:+ name);
     w_fee := ["0.05"];
     w_derivePublicKey := fun key => "pub:" +:+ key;
     w_net := net (Responds 150 (json_ok (nonce_reply (VStr "3"))))
                  (Responds 300 (json_ok (zkapp_reply "0xabc")));
     w_nonce := [];
     w_sign := fun parties fp key => Some ("signed:" +:+ parties);
     w_confirm := ["yes"] |}.

End Scenario.

(** ** Other worlds *)

Module UnusableAlias.

Definition no_url_entry : network_entry :=
  {| url := Some EmptyString; keyPath := None; smartContract := None |}.

Definition cfg : config := {| networks := {[ "testnet" := no_url_entry ]} |}.

Definition world : World := with_config Scenario.world (ReadOk cfg).

End UnusableAlias.

Module MixedCase.

Definition cfg : config := {| networks := {[ "TestNet" := Scenario.entry ]} |}.

Definition world : World := with_config Scenario.world (ReadOk cfg).

End MixedCase.

Module Inherited.

(** An entry stored under a key that lowercases to a name every object
    inherits. *)
Definition cfg : config := {| networks := {[ "Constructor" := Scenario.entry ]} |}.

Definition world : World := with_config Scenario.world (ReadOk cfg).

End Inherited.

Module NoNetworks.

(** A config.json without a networks object. *)
Definition world : World := with_config Scenario.world ReadNoNetworks.

End NoNetworks.

Module Refusal.

(** The scenario with another answer at the confirmation prompt. *)
Definition world (answer : string) : World :=
  with_confirm Scenario.world [answer].

End Refusal.

Module Resolver.

Definition configured : config :=
  {| networks :=
       {[ "testnet" := {| url := Some "https://example/graphql";
                          keyPath := Some "keys/testnet.json";
                          smartContract := Some "Bar" |} ]} |}.

Definition two : World := with_smartContracts Scenario.world ["Foo"; "Baz"].

End Resolver.

Module Persistence.

(** The configuration the scenario's first deploy writes. *)
Definition after : config :=
  set_smartContract Scenario.cfg "testnet" Scenario.entry "Foo".

(** A later deploy, with a second contract in the build. *)
Definition later : World :=
  with_smartContracts (with_config Scenario.world (ReadOk after)) ["Baz"; "Foo"].

End Persistence.

Module Slow.

Definition late : network_behaviour :=
  Responds 20001 (Scenario.json_ok (Scenario.nonce_reply (VStr "3"))).

Definition world : World :=
  with_nonce (with_net Scenario.world (fun _ _ => Hangs)) ["4"].

End Slow.

Module OtherKey.

(** The alias names another key file than keys/testnet.json. *)
Definition entry : network_entry :=
  {| url := Some "https://example/graphql";
     keyPath := Some "keys/deployer.json";
     smartContract := Some "Foo" |}.

Definition cfg : config := {| networks := {[ "testnet" := entry ]} |}.

Definition both (path : string) : option keyfile :=
  if String.eqb path "keys/deployer.json"
  then Some {| privateKey := "KEY_A"; publicKey := "pub:KEY_A" |}
  else if String.eqb path "keys/testnet.json"
  then Some {| privateKey := "KEY_B"; publicKey := "pub:KEY_B" |}
  else None.

Definition only_configured (path : string) : option keyfile :=
  if String.eqb path "keys/deployer.json"
  then Some {| privateKey := "KEY_A"; publicKey := "pub:KEY_A" |}
  else None.

Definition world (files : string -> option keyfile) : World :=
  with_files (with_config Scenario.world (ReadOk cfg)) files.

End OtherKey.

Module BlankNonce.

Definition unknown_account : value := VObj [("data", VObj [("account", VNull)])].

(** The account is unknown to the network; the operator enters three spaces. *)
Definition blank : World :=
  with_nonce
    (with_net Scenario.world
       (Scenario.net (Responds 150 (Scenario.json_ok unknown_account))
                     (Responds 300 (Scenario.json_ok (Scenario.zkapp_reply "0xabc")))))
    ["   "].

(** The reply carries the nonce 0 as a number. *)
Definition zero : World :=
  with_nonce
    (with_net Scenario.world
       (Scenario.net (Responds 150 (Scenario.json_ok (Scenario.nonce_reply (VNum 0))))
                     (Responds 300 (Scenario.json_ok (Scenario.zkapp_reply "0xabc")))))
    ["7"].

End BlankNonce.

Module Submission.

Definition nonce_ok : network_behaviour :=
  Responds 150 (Scenario.json_ok (Scenario.nonce_reply (VStr "3"))).

Definition world (submit : network_behaviour) : World :=
  with_net Scenario.world (Scenario.net nonce_ok submit).

(** HTTP 200 with the GraphQL error shape: data is null. *)
Definition graphql_errors : network_behaviour :=
  Responds 300
    (Scenario.json_ok
       (VObj [("data", VNull);
              ("errors", VArr [VObj [("message", VStr "Invalid_nonce")]])])).

(** HTTP 500 with errors in the body. *)
Definition http_500 : network_behaviour :=
  Responds 300
    {| status := 500; statusText := "Internal Server Error";
       body := Some (VObj [("errors", VArr [VStr "boom"])]) |}.

(** HTTP 502 with a body that is not JSON. *)
Definition http_502_html : network_behaviour :=
  Responds 300 {| status := 502; statusText := "Bad Gateway"; body := None |}.

(** HTTP 200, the zkapp object marks the failure. *)
Definition marked : network_behaviour :=
  Responds 300
    (Scenario.json_ok
       (VObj [("data", VObj [("sendZkapp",
          VObj [("zkapp", VObj [("kind", VStr "error")])])])])).

Definition reported (w : World) : event :=
  List.last (trace (deploy w "testnet" true)) (Log EmptyString).

End Submission.

(** * The rest of the deploy helpers *)

(** ** findSmartContracts and findSmartContractToDeploy, lines 400-452 *)

Module Scan.

(** [\w] of a regular expression without the u flag. *)
Definition is_word (c : ascii) : bool :=
  let n := Js.code c in
  ((48 <=? n) && (n <=? 57))%N
  || ((65 <=? n) && (n <=? 90))%N
  || (n =? 95)%N
  || ((97 <=? n) && (n <=? 122))%N.

(** Canonicalize of the i flag: the upper case of a code unit.  The patterns
    hold ASCII only, and no code unit from 128 on canonicalizes into ASCII,
    so that what matters is a-z going to A-Z. *)
Definition canon (c : ascii) : ascii :=
  let n := Js.code c in
  if ((97 <=? n) && (n <=? 122))%N then ascii_of_N (n - 32) else c.

Definition same_ci (p c : ascii) : bool := Ascii.eqb (canon p) (canon c).

(** The literal [pat], letter case ignored, at the head of [l]: what is left
    of [l] after it. *)
Fixpoint match_lit (pat l : list ascii) : option (list ascii) :=
  match pat, l with
  | [], _ => Some l
  | p :: pat', c :: l' => if same_ci p c then match_lit pat' l' else None
  | _ :: _, [] => None
  end.

(** The greedy [\w*]: the longest run of word characters, and the rest. *)
Fixpoint take_word (l : list ascii) : list ascii * list ascii :=
  match l with
  | c :: l' =>
      if is_word c
      then let '(w, r) := take_word l' in (c :: w, r)
      else ([], l)
  | [] => ([], [])
  end.

Definition kw_class : list ascii := Js.chars "class ".
Definition kw_extends : list ascii := Js.chars " extends SmartContract".

(** The regular expression of line 406 (class, a group of word characters,
    extends SmartContract, with the flag i) at the head of [l]: the capture
    group and the length of the match.  The literal after [\w*] begins with a
    space, which no shorter run of word characters is followed by, so that
    backtracking into the group never succeeds. *)
Definition match_at (l : list ascii) : option (list ascii * nat) :=
  match match_lit kw_class l with
  | None => None
  | Some r =>
      let '(w, r') := take_word r in
      match match_lit kw_extends r' with
      | Some _ => Some (w, (length kw_class + length w + length kw_extends)%nat)
      | None => None
      end
  end.

(** [str.matchAll(re)] with the g flag, mapped to the capture group: the
    matches from left to right, each search starting where the previous match
    ended.  [skip] counts the code units still covered by the last match. *)
Fixpoint scan (skip : nat) (l : list ascii) : list string :=
  match l with
  | [] => []
  | _ :: l' =>
      match skip with
      | S n => scan n l'
      | O =>
          match match_at l with
          | Some (w, len) => Js.str w :: scan (pred len) l'
          | None => scan 0 l'
          end
      end
  end.

Definition matchAll (content : string) : list string := scan 0 (Js.chars content).

(** [re.test(content)] for the regular expression built from a literal
    [pat] with the flags gi, [lastIndex] being 0: some position matches. *)
Fixpoint test_lit (pat l : list ascii) : bool :=
  match match_lit pat l with
  | Some _ => true
  | None =>
      match l with
      | [] => false
      | _ :: l' => test_lit pat l'
      end
  end.

(** [path.basename] (POSIX): trailing slashes dropped, then what follows the
    last slash. *)
Fixpoint after_last_slash (acc l : list ascii) : list ascii :=
  match l with
  | [] => acc
  | c :: l' =>
      if (Js.code c =? 47)%N then after_last_slash [] l'
      else after_last_slash (acc ++ [c]) l'
  end.

Fixpoint drop_slashes (l : list ascii) : list ascii :=
  match l with
  | c :: l' => if (Js.code c =? 47)%N then drop_slashes l' else l
  | [] => []
  end.

Definition basename (path : string) : string :=
  Js.str (after_last_slash [] (rev (drop_slashes (rev (Js.chars path))))).

End Scan.

(** The two literals of the regular expression in canonical form. *)
Definition Kc : list ascii := map Scan.canon Scan.kw_class.
Definition Ke : list ascii := map Scan.canon Scan.kw_extends.

(** A file of the build, as [glob] lists it: its path and its content. *)
Definition build_file : Type := (string * string)%type.

(** [findSmartContracts], lines 400-413, on the files the glob yields. *)
Definition findSmartContracts (files : list build_file) : list string :=
  flat_map (fun file => Scan.matchAll (snd file)) files.

(** The source of the regular expression of line 445. *)
Definition declaration (contractName : string) : list ascii :=
  Scan.kw_class ++ Js.chars contractName ++ Scan.kw_extends.

(** [findSmartContractToDeploy], lines 443-452, for a [contractName] of word
    characters, which makes the regular expression a literal: the base name
    of the first file that holds the declaration, or undefined.  A failed
    [test] resets [lastIndex], so every file is searched from its start. *)
Definition findSmartContractToDeploy
    (files : list build_file) (contractName : string) : option string :=
  match List.find (fun file => Scan.test_lit (declaration contractName)
                                 (Js.chars (snd file))) files with
  | Some file => Some (Scan.basename (fst file))
  | None => None
  end.

(** The module deploy imports, line 185. *)
Definition import_path (DIR smartContractFile : string) : string :=
  DIR +:+ "/build/src/" +:+ smartContractFile.

(** [content] holds a declaration of the class [name]: the word class, a
    space, the name as a whole run of word characters, and extends
    SmartContract, the two literals in any letter case. *)
Definition declares (content name : string) : Prop :=
  exists pre kw ex post,
    Js.chars content = pre ++ kw ++ Js.chars name ++ ex ++ post
    /\ map Scan.canon kw = map Scan.canon Scan.kw_class
    /\ map Scan.canon ex = map Scan.canon Scan.kw_extends
    /\ forallb Scan.is_word (Js.chars name) = true.

(** A name of word characters. *)
Definition word_name (name : string) : Prop :=
  forallb Scan.is_word (Js.chars name) = true.

(** Two names that differ in letter case at most. *)
Definition same_name_ci (name name' : string) : Prop :=
  map Scan.canon (Js.chars name) = map Scan.canon (Js.chars name').

Definition no_slash (l : list ascii) : bool :=
  forallb (fun c => negb (Js.code c =? 47)%N) l.

(** ** Predicates on the events of deploy *)

(** A request goes to the endpoint [u]. *)
Definition request_to (u : string) (e : event) : Prop :=
  forall endpoint q t, e = Request endpoint q t -> endpoint = u.

(** A rewrite of config.json sets the smartContract of [alias] in [c] and
    nothing else. *)
Definition writes_only_contract
    (c : config) (alias : string) (entry : network_entry) (e : event) : Prop :=
  forall c', e = WriteConfig c' ->
  exists name, c' = set_smartContract c alias entry name.

(** Neither a request nor a signature. *)
Definition no_request_no_signature (e : event) : Prop :=
  (forall endpoint q t, e <> Request endpoint q t)
  /\ (forall fp key, e <> Sign fp key).

(** What is signed and what is asked of the network are about the key of
    the file at [path]: the signature is made with its private key, for the
    fee payer derived from it and with an empty memo, and the account
    queried is that fee payer. *)
Definition about_key (w : World) (path : string) (e : event) : Prop :=
  forall file, w_files w path = Some file ->
  (forall fp key, e = Sign fp key ->
     key = privateKey file
     /\ feePayer fp = w_derivePublicKey w (privateKey file)
     /\ memo fp = EmptyString)
  /\ (forall endpoint pk t, e = Request endpoint (AccountQuery pk) t ->
      pk = w_derivePublicKey w (privateKey file)).

(** The account query came back as JSON with a success status, in time. *)
Definition answered (b : network_behaviour) : Prop :=
  exists ms r json,
    b = Responds ms r /\ (ms < timeout_ms)%N /\ ok r = true /\ body r = Some json.

(** ** More worlds *)

Definition with_select (w : World) (select : list string -> option string)
  : World :=
  {| w_config := w_config w; w_build := w_build w;
     w_smartContracts := w_smartContracts w; w_select := select;
     w_import := w_import w; w_files := w_files w;
     w_toPublicKey := w_toPublicKey w; w_compile := w_compile w;
     w_deployTx := w_deployTx w; w_fee := w_fee w;
     w_derivePublicKey := w_derivePublicKey w; w_net := w_net w;
     w_nonce := w_nonce w; w_sign := w_sign w; w_confirm := w_confirm w |}.

Definition with_import (w : World) (import : string -> option (list string))
  : World :=
  {| w_config := w_config w; w_build := w_build w;
     w_smartContracts := w_smartContracts w; w_select := w_select w;
     w_import := import; w_files := w_files w;
     w_toPublicKey := w_toPublicKey w; w_compile := w_compile w;
     w_deployTx := w_deployTx w; w_fee := w_fee w;
     w_derivePublicKey := w_derivePublicKey w; w_net := w_net w;
     w_nonce := w_nonce w; w_sign := w_sign w; w_confirm := w_confirm w |}.

Definition with_build (w : World) (built : bool) : World :=
  {| w_config := w_config w; w_build := built;
     w_smartContracts := w_smartContracts w; w_select := w_select w;
     w_import := w_import w; w_files := w_files w;
     w_toPublicKey := w_toPublicKey w; w_compile := w_compile w;
     w_deployTx := w_deployTx w; w_fee := w_fee w;
     w_derivePublicKey := w_derivePublicKey w; w_net := w_net w;
     w_nonce := w_nonce w; w_sign := w_sign w; w_confirm := w_confirm w |}.

Module Stale.

(** Two contracts in the build; the operator picks the second, whose module
    is not below build/src. *)
Definition world : World :=
  with_import
    (with_select (with_smartContracts Scenario.world ["Foo"; "Baz"])
       (fun choices => choices !! 1%nat))
    (fun name => if String.eqb name "Foo" then Some ["Foo"] else None).

(** The operator leaves the selection with ctrl+C. *)
Definition cancelled : World :=
  with_select (with_smartContracts Scenario.world ["Foo"; "Baz"]) (fun _ => None).

End Stale.

(** * The alias prompt of zk config and the names of zk project *)

(** [s.replace(' ', '-')]: the first U+0020 becomes a hyphen. *)
Fixpoint replace_space (s : string) : string :=
  match s with
  | EmptyString => EmptyString
  | String c s' =>
      if (Js.code c =? 32)%N then String "-" s' else String c (replace_space s')
  end.



Module Alias.

(** [val.toLowerCase().trim().replace(' ', '-')], lib/config.js lines 104
    and 111. *)
Definition normal (val : string) : string :=
  replace_space (Js.trim (Js.toLowerCase val)).

(** The [validate] callback of the deployAlias prompt, lines 103-110, for a
    configuration that keeps its aliases under [networks];
    [Object.keys(..).includes(val)] is the presence of the key. *)
Definition validate (c : config) (val : string) : option string :=
  let val := normal val in
  if String.eqb val EmptyString then Some "Name is required."
  else if bool_decide (is_Some (networks c !! val)) then Some "Name already exists."
  else None.

(** The [result] callback, line 111. *)
Definition result (val : string) : string := normal val.

(** The entry of lines 162-166. *)
Record entry : Type := {
  e_url : string;
  e_keyPath : string;
  e_fee : string;
}.

(** The file the key pair is written to, line 152. *)
Definition key_file (deployAlias : string) : string :=
  "keys/" +:+ deployAlias +:+ ".json".

Definition new_entry (deployAlias url fee : string) : entry :=
  {| e_url := url;
     e_keyPath := "keys/" +:+ deployAlias +:+ ".json";
     e_fee := fee |}.

(** What deploy reads of such an entry. *)
Definition as_network_entry (e : entry) : network_entry :=
  {| url := Some (e_url e); keyPath := Some (e_keyPath e); smartContract := None |}.

(** Line 162, [config.networks[deployAlias] = {...}], as deploy will read the
    configuration written.  The assignment makes or updates an own property,
    but for the name [__proto__] on an object without such an own property:
    there it sets the prototype of the object, and the configuration written
    holds no new alias. *)
Definition add (c : config) (deployAlias url fee : string) : config :=
  if String.eqb deployAlias "__proto__"
     && negb (bool_decide (is_Some (networks c !! deployAlias)))
  then c
  else
    {| networks :=
         <[deployAlias := as_network_entry (new_entry deployAlias url fee)]>
           (networks c) |}.

(** Lines 146-168, once the three prompts are answered: nothing is written
    when an answer is empty (line 147); otherwise the key pair goes to
    [key_file deployAlias] and the entry into the configuration.  [None] is
    the return of line 147. *)
Definition configure (c : config) (deployAlias url fee : string) : option config :=
  if String.eqb deployAlias EmptyString
     || String.eqb url EmptyString
     || String.eqb fee EmptyString
  then None
  else Some (add c deployAlias url fee).

End Alias.

(** * Properties *)

(** ** The JavaScript primitives and the scenario, on samples *)

Example isNaN_samples :
  map Js.isNaN ["1"; "0.01"; " 1 "; "   "; "1e3"; "-.5"; "0x1F"; "Infinity"; "5."]
  = [false; false; false; false; false; false; false; false; false]
  /\ map Js.isNaN ["abc"; "1 2"; "."; "1e"; "0x"; "+-1"; "1,5"; "e5"; "-0x10"; "1_0"]
  = [true; true; true; true; true; true; true; true; true; true].
Proof. split; vm_compute; reflexivity. Qed.

Example toLowerCase_samples :
  map Js.toLowerCase ["YES"; "Y"; "TestNet"; "berkeley"]
  = ["yes"; "y"; "testnet"; "berkeley"].
Proof. vm_compute. reflexivity. Qed.

Example trim_samples :
  map Js.trim [" 1 "; "1"; "   "; " a b "] = ["1"; "1"; EmptyString; "a b"].
Proof. vm_compute. reflexivity. Qed.

Example scenario_run :
  deploy Scenario.world "testnet" false =
  ([ StepOk "Build project";
     StepOk "Generate build.json";
     StepOk "Choose smart contract";
     Log (msg_only_contract "Foo");
     WriteConfig
       {| networks :=
            {[ "testnet" :=
                 {| url := Some "https://example/graphql";
                    keyPath := Some "keys/testnet.json";
                    smartContract := Some "Foo" |} ]} |};
     Log msg_config_updated;
     ReadKey "keys/testnet.json";
     StepOk "Generate verification key";
     StepOk "Build transaction";
     Input "fee";
     Request "https://example/graphql" (AccountQuery "pub:KEY") 20000;
     Sign {| feePayer := "pub:KEY"; nonce := VStr "3";
             fee := "0.05000000000"; memo := EmptyString |} "KEY";
     StepOk "Sign transaction";
     Input "confirm";
     Request "https://example/graphql" (ZkAppMutation "signed:parties:Foo") 20000;
     StepOk "Send to network";
     Log (msg_success "0xabc") ],
   Returned).
Proof. vm_compute. reflexivity. Qed.

(** ** Reasoning about traces *)

Lemma bind_value {A B} (m : M A) (k : A -> M B) (t : list event) (a : A) :
  m = (t, inl a) -> bind m k = (t ++ fst (k a), snd (k a)).
Proof. intros ->. unfold bind. destruct (k a). reflexivity. Qed.

Lemma bind_stop {A B} (m : M A) (k : A -> M B) (t : list event) (o : outcome) :
  m = (t, inr o) -> bind m k = (t, inr o).
Proof. intros ->. reflexivity. Qed.

Lemma bind_ret_l {A B} (a : A) (k : A -> M B) : bind (ret a) k = k a.
Proof. unfold bind, ret. destruct (k a). reflexivity. Qed.

Lemma fst_bind {A B} (m : M A) (k : A -> M B) :
  fst (bind m k)
  = fst m ++ match snd m with
             | inl a => fst (k a)
             | inr _ => []
             end.
Proof.
  destruct m as [t [a | o]]; unfold bind; simpl.
  - destruct (k a). reflexivity.
  - rewrite app_nil_r. reflexivity.
Qed.

Lemma fst_run (m : M unit) : fst (run m) = fst m.
Proof. destruct m as [t [[] | o]]; reflexivity. Qed.

Lemma step_ok {A} (name : string) (a : A) :
  step name (ret (Some a)) = ([StepOk name], inl a).
Proof. reflexivity. Qed.

Lemma step_fail {A} (name : string) :
  step name (ret (@None A)) = ([StepFail name], inr (Exited 1)).
Proof. reflexivity. Qed.

Lemma bind_snd_inl {A B} (m : M A) (k : A -> M B) (b : B) :
  snd (bind m k) = inl b -> exists a, snd m = inl a /\ snd (k a) = inl b.
Proof.
  destruct m as [t [a | o]]; unfold bind; simpl.
  - destruct (k a) as [t' r] eqn:E. simpl. intros ->. exists a. rewrite E. auto.
  - discriminate.
Qed.

Lemma in_bind_l {A B} (m : M A) (k : A -> M B) (e : event) :
  In e (fst m) -> In e (fst (bind m k)).
Proof.
  destruct m as [t [a | o]]; unfold bind; simpl; auto.
  destruct (k a); simpl. intros. apply in_or_app. auto.
Qed.

Lemma in_bind_r {A B} (m : M A) (k : A -> M B) (e : event) (a : A) :
  snd m = inl a -> In e (fst (k a)) -> In e (fst (bind m k)).
Proof.
  destruct m as [t [a' | o]]; unfold bind; simpl; [|discriminate].
  intros [= ->]. destruct (k a); simpl. intros. apply in_or_app. auto.
Qed.

Lemma in_run (m : M unit) (e : event) : In e (fst m) -> In e (fst (run m)).
Proof. destruct m as [t [[] | o]]; auto. Qed.

Section Always.

Variable P : event -> Prop.

Lemma always_ret {A} (a : A) : always P (ret a).
Proof. constructor. Qed.

Lemma always_halt {A} (o : outcome) : always P (@halt A o).
Proof. constructor. Qed.

Lemma always_emit (e : event) : P e -> always P (emit e).
Proof. intros. repeat constructor. assumption. Qed.

Lemma always_bind {A B} (m : M A) (k : A -> M B) :
  always P m -> (forall a, snd m = inl a -> always P (k a)) -> always P (bind m k).
Proof.
  unfold always, bind. destruct m as [t [a | o]]; simpl; auto.
  intros Ht Hk. specialize (Hk a eq_refl). destruct (k a). simpl in *.
  apply Forall_app. auto.
Qed.

Lemma always_step {A} (name : string) (fn : M (option A)) :
  P (StepOk name) -> P (StepFail name) -> always P fn -> always P (step name fn).
Proof.
  intros Hok Hfail Hfn. unfold step. apply always_bind; [assumption|].
  intros [a|] _; (apply always_bind; [apply always_emit; assumption|]); intros _ _.
  - apply always_ret.
  - apply always_halt.
Qed.

Lemma always_prompt (name : string) (validate : string -> option string)
    (result : string -> M string) (entries : list string) :
  (forall msg, P (Rejected name msg)) ->
  (forall val, validate val = None -> always P (result val)) ->
  always P (prompt_input name validate result entries).
Proof.
  intros Hrej Hres. induction entries as [|val rest IH]; simpl.
  - apply always_halt.
  - destruct (validate val) eqn:E.
    + apply always_bind; [apply always_emit, Hrej | intros; apply IH].
    + apply always_bind; [apply Hres, E | intros; apply always_ret].
Qed.

Lemma always_run (m : M unit) : always P m -> Forall P (fst (run m)).
Proof. unfold always. destruct m as [t [[] | o]]; auto. Qed.

End Always.

Lemma prompt_input_value (name : string) (validate : string -> option string)
    (f : string -> string) (entries : list string) (r : string) :
  snd (prompt_input name validate (fun val => ret (f val)) entries) = inl r ->
  exists val, first_valid validate entries = Some val /\ r = answer val (f val).
Proof.
  induction entries as [|val rest IH]; simpl; [discriminate|].
  destruct (validate val) eqn:E.
  - intros H. apply bind_snd_inl in H as (? & _ & H). auto.
  - cbv [bind ret snd]. intros [= <-]. eauto.
Qed.

(** No bound on the number of rejected entries: after any run of invalid
    entries, each answered by its message, the prompt is still open and takes
    the next valid one. *)
Lemma prompt_input_retries (name : string) (validate : string -> option string)
    (result : string -> M string) (bad : list string) (val : string)
    (rest : list string) :
  Forall (fun b => validate b <> None) bad ->
  validate val = None ->
  prompt_input name validate result (bad ++ val :: rest)
  = (rejections name validate bad ++ fst (result val),
     match snd (result val) with
     | inl value => inl (answer val value)
     | inr o => inr o
     end).
Proof.
  intros Hbad Hval. induction Hbad as [|b bad Hb _ IH]; simpl.
  - rewrite Hval. destruct (result val) as [t [v | o]]; cbv [bind ret fst snd].
    + rewrite app_nil_r. reflexivity.
    + reflexivity.
  - destruct (validate b) eqn:E; [|congruence].
    rewrite IH. reflexivity.
Qed.

(** A hypothesis [snd m = inl a] left by [always_bind], where [m] is a case
    analysis: the branches that stop are contradictory, those that return
    fix [a]. *)
Ltac value_hyp H :=
  lazymatch type of H with
  | snd (match ?x with _ => _ end) = inl _ =>
      destruct x eqn:?;
      cbv [bind log emit halt ret snd] in H;
      first [ discriminate H | injection H as H; try subst | idtac ]
  | snd (ret _) = inl _ =>
      cbv [ret snd] in H; injection H as H; try subst
  | _ => idtac
  end.

(** One step of a proof of [always P m], by the shape of [m]; [hook] is
    tried first and [solveP] closes the goals about single events. *)
Ltac always_step_tac hook solveP :=
  first
    [ hook
    | lazymatch goal with
      | |- always _ (ret _) => apply always_ret
      | |- always _ (halt _) => apply always_halt
      | |- always _ (emit _) => apply always_emit; solveP
      | |- always _ (log _) => apply always_emit; solveP
      | |- always _ (step _ _) => apply always_step; [solveP | solveP | ]
      | |- always _ (prompt_input _ _ _ _) =>
          apply always_prompt; [intros; solveP | intros ]
      | |- always _ (bind _ _) =>
          apply always_bind;
          [ | let a := fresh "a" in let H := fresh "Hv" in
              intros a H; value_hyp H ]
      | |- always _ (match ?x with _ => _ end) => destruct x eqn:?
      | |- always _ (call_sendGraphQL _ _ _) => unfold call_sendGraphQL
      | |- always _ (identifyContract _ _ _ _) => unfold identifyContract; cbv zeta
      | |- always _ (setDefaultContract _ _ _ _) => unfold setDefaultContract; cbv zeta
      | |- always _ (resolveNonce _ _ _) => unfold resolveNonce; cbv zeta
      | |- always _ (confirmation _ _) => unfold confirmation
      | |- always _ (confirm_result _) => unfold confirm_result; cbv zeta
      | |- always _ (prepare _ _) => unfold prepare; cbv zeta
      | |- always _ (send _ _) => unfold send; cbv zeta
      end ].

Ltac always_tac solveP := repeat always_step_tac ltac:(fail) solveP.
Ltac always_tac_with hook solveP := repeat always_step_tac hook solveP.

(** ** Lowercasing *)

Lemma lower_char_not_upper (c : ascii) : Js.is_upper (Js.lower_char c) = false.
Proof. destruct c as [[] [] [] [] [] [] [] []]; reflexivity. Qed.

Lemma toLowerCase_no_upper (s : string) : Js.has_upper (Js.toLowerCase s) = false.
Proof.
  induction s as [|c s IH]; simpl; [reflexivity|].
  rewrite lower_char_not_upper, IH. reflexivity.
Qed.

Lemma toLowerCase_fixed (s : string) :
  Js.has_upper s = false -> Js.toLowerCase s = s.
Proof.
  induction s as [|c s IH]; simpl; [reflexivity|].
  intros H. apply orb_false_iff in H as [Hc Hs].
  unfold Js.lower_char. rewrite Hc, IH by assumption. reflexivity.
Qed.

Lemma toLowerCase_idempotent (s : string) :
  Js.toLowerCase (Js.toLowerCase s) = Js.toLowerCase s.
Proof. apply toLowerCase_fixed, toLowerCase_no_upper. Qed.

(** ** Early aborts (lines 74-101) *)

Lemma alias_entry_own (c : config) (k : string) (entry : network_entry) :
  networks c !! k = Some entry -> alias_entry c k = Some entry.
Proof. unfold alias_entry. intros ->. reflexivity. Qed.

Lemma alias_entry_absent (c : config) (k : string) :
  networks c !! k = None -> inherited k = false -> alias_entry c k = None.
Proof. unfold alias_entry. intros -> ->. reflexivity. Qed.

Lemma alias_entry_inherited (c : config) (k : string) :
  networks c !! k = None -> inherited k = true ->
  alias_entry c k = Some inherited_entry.
Proof. unfold alias_entry. intros -> ->. reflexivity. Qed.


Lemma deploy_alias_not_found (w : World) (network : string) (yes : bool) (c : config) :
  w_config w = ReadOk c ->
  alias_entry c (Js.toLowerCase network) = None ->
  deploy w network yes = (msgs_alias_not_found, Returned).
Proof.
  intros Hc Hn. unfold deploy, prepare. rewrite Hc. cbv zeta.
  rewrite (bind_value _ _ [] c eq_refl). rewrite Hn. reflexivity.
Qed.

Lemma deploy_no_url (w : World) (network : string) (yes : bool) (c : config)
    (entry : network_entry) :
  w_config w = ReadOk c ->
  alias_entry c (Js.toLowerCase network) = Some entry ->
  truthy_prop (url entry) = false ->
  deploy w network yes = (msgs_no_url, Returned).
Proof.
  intros Hc Hn Hu. unfold deploy, prepare. rewrite Hc. cbv zeta.
  rewrite (bind_value _ _ [] c eq_refl). rewrite Hn.
  rewrite (bind_value _ _ [] entry eq_refl). rewrite Hu. reflexivity.
Qed.

(** Past the checks of the alias and of its url, deploy builds the project. *)
Lemma deploy_reaches_build (w : World) (network : string) (yes : bool)
    (c : config) (entry : network_entry) :
  w_config w = ReadOk c ->
  networks c !! Js.toLowerCase network = Some entry ->
  truthy_prop (url entry) = true ->
  hd_error (trace (deploy w network yes))
  = Some (if w_build w then StepOk "Build project" else StepFail "Build project").
Proof.
  intros Hc Hn Hu. apply alias_entry_own in Hn.
  unfold trace, deploy, prepare. rewrite Hc. cbv zeta.
  rewrite bind_ret_l, Hn, bind_ret_l, Hu. cbn [negb]. rewrite bind_ret_l.
  rewrite fst_run, !fst_bind.
  destruct (w_build w); [rewrite step_ok | rewrite step_fail]; reflexivity.
Qed.

Lemma deploy_unusable_alias (w : World) (network : string) (yes : bool)
    (c : config) :
  w_config w = ReadOk c ->
  alias_unusable c (Js.toLowerCase network) ->
  deploy w network yes = (msgs_alias_not_found, Returned)
  \/ deploy w network yes = (msgs_no_url, Returned).
Proof.
  intros Hc Hu. unfold alias_unusable in Hu.
  destruct (networks c !! Js.toLowerCase network) as [entry|] eqn:E.
  - right. eapply deploy_no_url; [eassumption | | eassumption].
    apply alias_entry_own, E.
  - destruct (inherited (Js.toLowerCase network)) eqn:Ei.
    + right.
      apply (deploy_no_url w network yes c inherited_entry);
        [assumption | | reflexivity].
      apply alias_entry_inherited; assumption.
    + left. eapply deploy_alias_not_found; [eassumption|].
      apply alias_entry_absent; assumption.
Qed.

Lemma deploy_without_networks (w : World) (network : string) (yes : bool) :
  w_config w = ReadNoNetworks -> deploy w network yes = ([], Threw "TypeError").
Proof. intros Hc. unfold deploy, prepare. rewrite Hc. reflexivity. Qed.

(** C4 as stated fails for a config.json without a networks object ([{}],
    or the layout that keeps the aliases under deployAliases): it holds no
    alias at all, and deploy prints no cause; the property read of line 91
    throws a TypeError before anything is printed, and deploy does not
    return. *)
Lemma unusable_alias_counterexample :
  deploy NoNetworks.world "testnet" true = ([], Threw "TypeError")
  /\ ~ (exists msg, In (Log msg) (trace (deploy NoNetworks.world "testnet" true)))
  /\ snd (deploy NoNetworks.world "testnet" true) <> Returned.
Proof.
  split; [apply deploy_without_networks; reflexivity|]. split.
  - intros (msg & []).
  - discriminate.
Qed.

(** C4, as amended.  With a networks object in config.json: when the
    lowercased alias is absent from it, or is present with an empty or
    missing url, deploy returns at once: its whole trace is the printed cause
    (two console lines, the pair for the unknown alias or the pair for the
    missing url), so that no request is issued and config.json is not
    written.  Without a networks object deploy ends on the TypeError of line
    91 with an empty trace: nothing is printed, requested or written. *)
Theorem deploy_aborts_on_unusable_alias
    (w : World) (network : string) (yes : bool) :
  (forall c,
      w_config w = ReadOk c ->
      alias_unusable c (Js.toLowerCase network) ->
      snd (deploy w network yes) = Returned
      /\ (trace (deploy w network yes) = msgs_alias_not_found
          \/ trace (deploy w network yes) = msgs_no_url)
      /\ Forall is_log (trace (deploy w network yes))
      /\ (forall endpoint q t,
            ~ In (Request endpoint q t) (trace (deploy w network yes)))
      /\ (forall c', ~ In (WriteConfig c') (trace (deploy w network yes))))
  /\ (w_config w = ReadNoNetworks ->
      deploy w network yes = ([], Threw "TypeError")).
Proof.
  split; [|apply deploy_without_networks].
  intros c Hc Hu.
  destruct (deploy_unusable_alias w network yes c Hc Hu) as [-> | ->];
    unfold trace; simpl;
    (split; [reflexivity|]); (split; [auto|]);
    (split; [repeat constructor; eexists; reflexivity|]);
    split; intros; intros [? | [? | []]]; discriminate.
Qed.

Lemma deploy_aborts_on_unusable_alias_witness :
  snd (deploy UnusableAlias.world "mainnet" true) = Returned
  /\ trace (deploy UnusableAlias.world "TestNet" false) = msgs_no_url
  /\ deploy NoNetworks.world "testnet" true = ([], Threw "TypeError").
Proof.
  split; [|split].
  - destruct (deploy_aborts_on_unusable_alias UnusableAlias.world "mainnet" true)
      as [H _].
    destruct (H UnusableAlias.cfg) as (Hr & _);
      [reflexivity | vm_compute; exact I | exact Hr].
  - destruct (deploy_aborts_on_unusable_alias UnusableAlias.world "TestNet" false)
      as [H _].
    destruct (H UnusableAlias.cfg) as (_ & [Ht | Ht] & _);
      [reflexivity | vm_compute; reflexivity | discriminate Ht | exact Ht].
  - destruct (deploy_aborts_on_unusable_alias NoNetworks.world "testnet" true)
      as [_ H].
    apply H. reflexivity.
Defined.

(** ** The alias argument is lowercased (line 89) *)




(** ** The confirmation gate (lines 310-361) *)

Lemma prepare_no_submission (w : World) (network : string) :
  always not_submission (prepare w network).
Proof.
  always_tac ltac:(try (intros ? ? ? [=]; subst; reflexivity)).
Qed.

Lemma confirmation_value (w : World) (yes : bool) (confirm : string) :
  snd (confirmation w yes) = inl confirm -> confirm = "yes" \/ confirm = "y".
Proof.
  unfold confirmation. destruct yes; simpl.
  - intros [= <-]. auto.
  - intros H. apply bind_snd_inl in H as ([] & _ & H).
    destruct (w_confirm w) as [|val rest]; simpl in H; [discriminate|].
    apply bind_snd_inl in H as (v & H & Hv).
    cbv [ret snd] in Hv. injection Hv as <-.
    unfold confirm_result in H.
    destruct (String.eqb_spec (Js.toLowerCase val) "yes") as [E1|E1];
      destruct (String.eqb_spec (Js.toLowerCase val) "y") as [E2|E2];
      simpl in H;
      try (injection H as <-; first [rewrite E1 | rewrite E2]; cbn; auto);
      discriminate.
Qed.

Lemma confirmation_aborts (w : World) (val : string) (rest : list string) :
  w_confirm w = val :: rest ->
  Js.toLowerCase val <> "yes" -> Js.toLowerCase val <> "y" ->
  confirmation w false = (aborted, inr (Exited 0)).
Proof.
  intros Hw H1 H2. unfold confirmation. rewrite Hw. simpl. unfold confirm_result.
  apply String.eqb_neq in H1, H2. rewrite H1, H2. reflexivity.
Qed.

Lemma deploy_stops_in_prepare (w : World) (network : string) (yes : bool)
    (t : list event) (o : outcome) :
  prepare w network = (t, inr o) -> deploy w network yes = (t, o).
Proof. intros H. unfold deploy. rewrite (bind_stop _ _ t o H). reflexivity. Qed.

Lemma deploy_aborted (w : World) (network : string) (p : prepared)
    (t : list event) (val : string) (rest : list string) :
  prepare w network = (t, inl p) ->
  w_confirm w = val :: rest ->
  Js.toLowerCase val <> "yes" -> Js.toLowerCase val <> "y" ->
  deploy w network false = (t ++ aborted, Exited 0).
Proof.
  intros Hp Hw H1 H2. unfold deploy.
  rewrite (bind_value _ _ t p Hp).
  rewrite (bind_stop _ _ aborted (Exited 0) (confirmation_aborts w val rest Hw H1 H2)).
  reflexivity.
Qed.

Lemma deploy_confirmed_sends (w : World) (network : string) (yes : bool)
    (p : prepared) (t t' : list event) (confirm : string) :
  prepare w network = (t, inl p) ->
  confirmation w yes = (t', inl confirm) ->
  In (Request (graphQLEndpoint p) (ZkAppMutation (signedParties p)) timeout_ms)
     (trace (deploy w network yes)).
Proof.
  intros Hp Hc. unfold trace, deploy. apply in_run.
  apply in_bind_r with (a := p); [rewrite Hp; reflexivity|].
  apply in_bind_r with (a := confirm); [rewrite Hc; reflexivity|].
  assert (Hv : confirm = "yes" \/ confirm = "y").
  { apply (confirmation_value w yes). rewrite Hc. reflexivity. }
  apply in_bind_r with (a := tt); [destruct Hv as [-> | ->]; reflexivity|].
  unfold send. apply in_bind_l. unfold step. apply in_bind_l.
  apply in_bind_l. unfold call_sendGraphQL. apply in_bind_l. left. reflexivity.
Qed.

(** C3.  Without the auto-confirm flag, an answer whose lowercase form is
    neither yes nor y (the empty answer included) makes the confirmation
    block print the abort line and exit the process: deploy then ends right
    after the prompt, and no submission request appears anywhere in its trace.
    The answers YES and y are confirmed, with the value yes or y.  With the
    flag, the confirmation is yes with no prompt.  A confirmed deploy issues
    the submission request. *)
Theorem confirmation_gate (w : World) (network : string) :
  (forall val rest,
      w_confirm w = val :: rest ->
      Js.toLowerCase val <> "yes" -> Js.toLowerCase val <> "y" ->
      confirmation w false = (aborted, inr (Exited 0))
      /\ Forall not_submission (trace (deploy w network false))
      /\ (forall p t, prepare w network = (t, inl p) ->
            deploy w network false = (t ++ aborted, Exited 0)))
  /\ (forall rest, w_confirm w = "YES" :: rest ->
        confirmation w false = ([Input "confirm"], inl "yes"))
  /\ (forall rest, w_confirm w = "y" :: rest ->
        confirmation w false = ([Input "confirm"], inl "y"))
  /\ confirmation w true = ([], inl "yes")
  /\ (forall yes p t t' confirm,
        prepare w network = (t, inl p) ->
        confirmation w yes = (t', inl confirm) ->
        In (Request (graphQLEndpoint p) (ZkAppMutation (signedParties p)) timeout_ms)
           (trace (deploy w network yes))).
Proof.
  split; [|split; [|split; [|split]]].
  - intros val rest Hw H1 H2. split; [|split].
    + eapply confirmation_aborts; eassumption.
    + destruct (prepare w network) as [t [p | o]] eqn:Hp.
      * rewrite (deploy_aborted w network p t val rest Hp Hw H1 H2).
        unfold trace; simpl. apply Forall_app. split.
        -- pose proof (prepare_no_submission w network) as H.
           unfold always in H. rewrite Hp in H. exact H.
        -- repeat constructor; intros ? ? ? [=].
      * rewrite (deploy_stops_in_prepare w network false t o Hp).
        pose proof (prepare_no_submission w network) as H.
        unfold always in H. rewrite Hp in H. exact H.
    + intros p t Hp. eapply deploy_aborted; eassumption.
  - intros rest Hw. unfold confirmation. rewrite Hw. reflexivity.
  - intros rest Hw. unfold confirmation. rewrite Hw. reflexivity.
  - reflexivity.
  - intros. eapply deploy_confirmed_sends; eassumption.
Qed.

Lemma confirmation_gate_witness :
  snd (deploy (Refusal.world "no") "testnet" false) = Exited 0
  /\ snd (deploy (Refusal.world EmptyString) "testnet" false) = Exited 0
  /\ confirmation (Refusal.world "YES") false = ([Input "confirm"], inl "yes").
Proof.
  split; [|split].
  - destruct (confirmation_gate (Refusal.world "no") "testnet") as (H & _).
    destruct (H "no" [] eq_refl) as (_ & _ & Hd);
      [vm_compute; discriminate | vm_compute; discriminate |].
    destruct (prepare (Refusal.world "no") "testnet") as [t [p | o]] eqn:Hp;
      [rewrite (Hd p t eq_refl); reflexivity | vm_compute in Hp; discriminate Hp].
  - destruct (confirmation_gate (Refusal.world EmptyString) "testnet") as (H & _).
    destruct (H EmptyString [] eq_refl) as (_ & _ & Hd);
      [vm_compute; discriminate | vm_compute; discriminate |].
    destruct (prepare (Refusal.world EmptyString) "testnet") as [t [p | o]] eqn:Hp;
      [rewrite (Hd p t eq_refl); reflexivity | vm_compute in Hp; discriminate Hp].
  - destruct (confirmation_gate (Refusal.world "YES") "testnet") as (_ & H & _).
    apply (H []). reflexivity.
Defined.

(** ** The fee (lines 245-262 and 291-296) *)

(** A numeric literal holds no U+0020, so that after [trim] the
    [replace(/ /, '')] of the [result] callbacks changes nothing on an entry
    that passed [validate]. *)

Lemma is_digit_no_sp (c : ascii) : Js.is_digit c = true -> no_sp c = true.
Proof. destruct c as [[] [] [] [] [] [] [] []]; simpl; intros H; try discriminate H; reflexivity. Qed.

Lemma is_bin_digit_no_sp (c : ascii) : Js.is_bin_digit c = true -> no_sp c = true.
Proof. destruct c as [[] [] [] [] [] [] [] []]; simpl; intros H; try discriminate H; reflexivity. Qed.

Lemma is_oct_digit_no_sp (c : ascii) : Js.is_oct_digit c = true -> no_sp c = true.
Proof. destruct c as [[] [] [] [] [] [] [] []]; simpl; intros H; try discriminate H; reflexivity. Qed.

Lemma is_hex_digit_no_sp (c : ascii) : Js.is_hex_digit c = true -> no_sp c = true.
Proof. destruct c as [[] [] [] [] [] [] [] []]; simpl; intros H; try discriminate H; reflexivity. Qed.

Lemma code_eq_no_sp (c : ascii) (n : N) :
  (Js.code c =? n)%N = true -> n <> 32%N -> no_sp c = true.
Proof.
  intros H Hn. apply N.eqb_eq in H. unfold no_sp. rewrite H.
  apply negb_true_iff, N.eqb_neq, Hn.
Qed.

Lemma forallb_weaken (p q : ascii -> bool) (l : list ascii) :
  (forall c, p c = true -> q c = true) -> forallb p l = true -> forallb q l = true.
Proof.
  intros Hpq. induction l as [|c l IH]; simpl; [reflexivity|].
  intros H. apply andb_true_iff in H as [Hc Hl].
  rewrite (Hpq c Hc), IH by assumption. reflexivity.
Qed.

Lemma nonempty_all_forallb (p : ascii -> bool) (l : list ascii) :
  Js.nonempty_all p l = true -> forallb p l = true.
Proof. destruct l; [discriminate | auto]. Qed.

Lemma skip_digits_split (l : list ascii) :
  exists ds, l = ds ++ Js.skip_digits l /\ forallb Js.is_digit ds = true.
Proof.
  induction l as [|c l (ds & Hl & Hds)]; simpl.
  - exists []. auto.
  - destruct (Js.is_digit c) eqn:E.
    + exists (c :: ds). simpl. rewrite E, Hds. split; [congruence | reflexivity].
    + exists []. auto.
Qed.

Lemma skip_digits_no_sp (l : list ascii) :
  forallb no_sp (Js.skip_digits l) = true -> forallb no_sp l = true.
Proof.
  intros H. destruct (skip_digits_split l) as (ds & Hl & Hds).
  rewrite Hl, forallb_app, H, andb_true_r.
  apply (forallb_weaken Js.is_digit); [apply is_digit_no_sp | assumption].
Qed.

Lemma signed_integer_no_sp (l : list ascii) :
  Js.signed_integer l = true -> forallb no_sp l = true.
Proof.
  destruct l as [|c l]; [discriminate|]. unfold Js.signed_integer.
  destruct ((Js.code c =? 43) || (Js.code c =? 45))%N eqn:E; intros H.
  - apply nonempty_all_forallb in H. cbn [forallb].
    apply (forallb_weaken _ _ _ is_digit_no_sp) in H. rewrite H, andb_true_r.
    apply orb_true_iff in E as [E | E];
      (eapply code_eq_no_sp; [exact E | discriminate]).
  - apply nonempty_all_forallb in H.
    apply (forallb_weaken Js.is_digit); [apply is_digit_no_sp | assumption].
Qed.

Lemma exponent_opt_no_sp (l : list ascii) :
  Js.exponent_opt l = true -> forallb no_sp l = true.
Proof.
  destruct l as [|c l]; [reflexivity|]. cbn [Js.exponent_opt forallb].
  intros H. apply andb_true_iff in H as [Hc Hl].
  rewrite (signed_integer_no_sp l Hl), andb_true_r.
  apply orb_true_iff in Hc as [E | E];
    (eapply code_eq_no_sp; [exact E | discriminate]).
Qed.

Lemma chars_str (l : list ascii) : Js.chars (Js.str l) = l.
Proof. apply list_ascii_of_string_of_list_ascii. Qed.

Lemma unsigned_decimal_no_sp (l : list ascii) :
  Js.unsigned_decimal l = true -> forallb no_sp l = true.
Proof.
  unfold Js.unsigned_decimal.
  destruct (String.eqb_spec (Js.str l) "Infinity") as [E | _].
  - intros _. rewrite <- (chars_str l), E. reflexivity.
  - intros H. apply skip_digits_no_sp.
    destruct (Js.skip_digits l) as [|c r'] eqn:Er; [reflexivity|].
    destruct (Js.code c =? 46)%N eqn:Ec.
    + apply andb_true_iff in H as [_ H]. cbn [forallb].
      rewrite (skip_digits_no_sp r' (exponent_opt_no_sp _ H)), andb_true_r.
      eapply code_eq_no_sp; [exact Ec | discriminate].
    + apply andb_true_iff in H as [_ H]. apply exponent_opt_no_sp, H.
Qed.

Lemma non_decimal_no_sp (l : list ascii) :
  Js.non_decimal l = true -> forallb no_sp l = true.
Proof.
  destruct l as [|z [|p ds]]; try discriminate. cbn [Js.non_decimal forallb].
  intros H. apply andb_true_iff in H as [Hz H].
  rewrite (code_eq_no_sp z 48 Hz) by discriminate. cbn [andb].
  destruct ((Js.code p =? 98) || (Js.code p =? 66))%N eqn:Eb;
    [|destruct ((Js.code p =? 111) || (Js.code p =? 79))%N eqn:Eo;
      [|destruct ((Js.code p =? 120) || (Js.code p =? 88))%N eqn:Ex;
        [|discriminate]]].
  - apply nonempty_all_forallb, (forallb_weaken _ _ _ is_bin_digit_no_sp) in H.
    rewrite H, andb_true_r. apply orb_true_iff in Eb as [E | E];
      (eapply code_eq_no_sp; [exact E | discriminate]).
  - apply nonempty_all_forallb, (forallb_weaken _ _ _ is_oct_digit_no_sp) in H.
    rewrite H, andb_true_r. apply orb_true_iff in Eo as [E | E];
      (eapply code_eq_no_sp; [exact E | discriminate]).
  - apply nonempty_all_forallb, (forallb_weaken _ _ _ is_hex_digit_no_sp) in H.
    rewrite H, andb_true_r. apply orb_true_iff in Ex as [E | E];
      (eapply code_eq_no_sp; [exact E | discriminate]).
Qed.

Lemma numeric_literal_no_sp (l : list ascii) :
  Js.numeric_literal l = true -> forallb no_sp l = true.
Proof.
  unfold Js.numeric_literal. intros H. apply orb_true_iff in H as [H | H].
  - apply non_decimal_no_sp, H.
  - destruct l as [|c l]; [reflexivity|].
    destruct ((Js.code c =? 43) || (Js.code c =? 45))%N eqn:E.
    + cbn [forallb]. rewrite (unsigned_decimal_no_sp l H), andb_true_r.
      apply orb_true_iff in E as [E | E];
        (eapply code_eq_no_sp; [exact E | discriminate]).
    + apply unsigned_decimal_no_sp, H.
Qed.

Lemma remove_first_space_id (l : list ascii) :
  forallb no_sp l = true -> Js.remove_first_space (Js.str l) = Js.str l.
Proof.
  induction l as [|c l IH]; simpl; [reflexivity|].
  intros H. apply andb_true_iff in H as [Hc Hl].
  unfold no_sp in Hc. apply negb_true_iff in Hc. rewrite Hc, IH by assumption.
  reflexivity.
Qed.

(** On an entry that is not NaN, the [result] callback is [trim]. *)
Lemma result_is_trim (val : string) :
  Js.isNaN val = false -> Js.remove_first_space (Js.trim val) = Js.trim val.
Proof.
  unfold Js.isNaN, Js.trim. intros H. apply remove_first_space_id.
  destruct (Js.trim_end (Js.trim_start (Js.chars val))) as [|c l] eqn:E;
    [reflexivity|].
  apply negb_false_iff in H. apply numeric_literal_no_sp, H.
Qed.

Lemma fee_validate_accepts (val : string) :
  fee_validate val = None -> val <> EmptyString /\ Js.isNaN val = false.
Proof.
  unfold fee_validate. destruct (String.eqb_spec val EmptyString); [discriminate|].
  destruct (Js.isNaN val); [discriminate | auto].
Qed.

Lemma fee_result_trim (val : string) :
  fee_validate val = None -> fee_result val = Js.trim val.
Proof. intros H. apply result_is_trim, (fee_validate_accepts val H). Qed.

Lemma first_valid_valid (validate : string -> option string)
    (entries : list string) (val : string) :
  first_valid validate entries = Some val -> validate val = None.
Proof.
  induction entries as [|e rest IH]; simpl; [discriminate|].
  destruct (validate e) eqn:E; [exact IH | intros [= <-]; exact E].
Qed.

Lemma deploy_fee_from_entry (w : World) (network : string) (yes : bool) :
  Forall (fee_from_entry w) (trace (deploy w network yes)).
Proof.
  unfold trace, deploy. apply always_run.
  always_tac ltac:(try (intros ? ? [=])).
  subst.
  match goal with
  | H : snd (prompt_input "fee" _ _ _) = inl ?x |- _ =>
      apply prompt_input_value in H as (f & Hf & ->)
  end.
  exists f. split; [assumption|]. simpl.
  rewrite (fee_result_trim f (first_valid_valid _ _ _ Hf)). reflexivity.
Qed.

(** The fee prompt never answers with the empty string: the return of line
    262 is taken on no answer. *)
Lemma fee_answer_not_empty (f : string) :
  fee_validate f = None -> answer f (fee_result f) <> EmptyString.
Proof.
  intros Hv. destruct (fee_validate_accepts f Hv) as [Hne _]. unfold answer.
  destruct (String.eqb_spec (fee_result f) EmptyString); assumption.
Qed.

(** C1, as amended.  The fee field of the transaction handed to the signer is
    the answer of the fee prompt followed by nine zero digits, by
    concatenation.  The answer is the accepted entry with its surrounding
    white space trimmed; for an entry of white space only, which the prompt
    accepts, the result is empty and the prompt answers with the entry as it
    was typed.  The fee field is the entry itself followed by nine zeros
    whenever the entry has no surrounding white space. *)
Theorem fee_is_trimmed_entry_and_nine_zeros
    (w : World) (network : string) (yes : bool) (fp : feePayerDeploy) (key : string) :
  In (Sign fp key) (trace (deploy w network yes)) ->
  exists f, first_valid fee_validate (w_fee w) = Some f
            /\ (Js.trim f <> EmptyString -> fee fp = Js.trim f +:+ "000000000")
            /\ (Js.trim f = EmptyString -> fee fp = f +:+ "000000000")
            /\ (Js.trim f = f -> fee fp = f +:+ "000000000").
Proof.
  intros Hin.
  pose proof (deploy_fee_from_entry w network yes) as H.
  rewrite List.Forall_forall in H. destruct (H _ Hin fp key eq_refl) as (f & Hf & Hfee).
  exists f. split; [assumption|]. unfold answer in Hfee.
  destruct (String.eqb_spec (Js.trim f) EmptyString) as [E | E].
  - split; [intros; contradiction|]. split; [intros; assumption|].
    intros; assumption.
  - split; [intros; assumption|]. split; [intros; contradiction|].
    intros Ht. rewrite Hfee, Ht. reflexivity.
Qed.

Lemma fee_is_trimmed_entry_and_nine_zeros_witness :
  (exists f,
      first_valid fee_validate (w_fee (with_fee Scenario.world ["abc"; " 0.01 "]))
      = Some f
      /\ (Js.trim f <> EmptyString -> "0.01000000000" = Js.trim f +:+ "000000000"))
  /\ (exists f,
        first_valid fee_validate (w_fee (with_fee Scenario.world [" "])) = Some f
        /\ (Js.trim f = EmptyString -> " 000000000" = f +:+ "000000000")).
Proof.
  split.
  - destruct (fee_is_trimmed_entry_and_nine_zeros
                (with_fee Scenario.world ["abc"; " 0.01 "]) "testnet" true
                {| feePayer := "pub:KEY"; nonce := VStr "3";
                   fee := "0.01000000000"; memo := EmptyString |} "KEY")
      as (f & Hf & H & _); [vm_compute; tauto|].
    exists f. split; assumption.
  - destruct (fee_is_trimmed_entry_and_nine_zeros
                (with_fee Scenario.world [" "]) "testnet" true
                {| feePayer := "pub:KEY"; nonce := VStr "3";
                   fee := " 000000000"; memo := EmptyString |} "KEY")
      as (f & Hf & _ & H & _); [vm_compute; tauto|].
    exists f. split; assumption.
Defined.

(** C1 as stated fails: the entry [" 1"] passes [validate], and the fee field
    is ["1000000000"], not the entry followed by nine zeros. *)
Lemma fee_is_raw_entry_counterexample :
  ~ (forall w network yes f fp key,
        first_valid fee_validate (w_fee w) = Some f ->
        In (Sign fp key) (trace (deploy w network yes)) ->
        fee fp = f +:+ "000000000").
Proof.
  intros H.
  specialize (H (with_fee Scenario.world [" 1"]) "testnet" true " 1"
                {| feePayer := "pub:KEY"; nonce := VStr "3";
                   fee := "1000000000"; memo := EmptyString |} "KEY").
  assert (E : "1000000000" = " 1000000000");
    [apply H; vm_compute; tauto | discriminate E].
Qed.

(** ** The contract resolver (lines 121-174 and 421-435) *)

Lemma choose_recorded (c : config) (smartContracts : list string) (network : string) :
  truthy_prop (recorded c network) = true ->
  Some (chooseSmartContract c smartContracts network) = recorded c network.
Proof.
  intros H. unfold chooseSmartContract. rewrite H.
  destruct (recorded c network); [reflexivity | discriminate].
Qed.

Lemma choose_single (c : config) (network only : string) :
  truthy_prop (recorded c network) = false ->
  chooseSmartContract c [only] network = only.
Proof. intros H. unfold chooseSmartContract. rewrite H. reflexivity. Qed.

Lemma choose_falsy (c : config) (smartContracts : list string) (network : string) :
  truthy_prop (recorded c network) = false ->
  length smartContracts <> 1%nat ->
  chooseSmartContract c smartContracts network = EmptyString.
Proof.
  intros H Hl. unfold chooseSmartContract. rewrite H.
  apply Nat.eqb_neq in Hl. rewrite Hl. reflexivity.
Qed.

Lemma identify_prompts (w : World) (c : config) (smartContracts : list string)
    (network : string) :
  chooseSmartContract c smartContracts network = EmptyString ->
  smartContracts <> [] ->
  identifyContract w c smartContracts network
  = ([Select smartContracts],
     match w_select w smartContracts with
     | Some name => inl name
     | None => inr Cancelled
     end).
Proof.
  intros H Hne. unfold identifyContract. rewrite H. cbv [truthy negb String.eqb].
  destruct smartContracts as [|first others]; [contradiction|].
  destruct (w_select w (first :: others)); reflexivity.
Qed.

(** Without a choice the select prompt fails before the operator is asked. *)
Lemma identify_without_choices (w : World) (c : config) (network : string) :
  truthy_prop (recorded c network) = false ->
  identifyContract w c [] network
  = ([Select []], inr (Threw "At least one choice must be selectable")).
Proof.
  intros Hr. unfold identifyContract, chooseSmartContract. rewrite Hr. reflexivity.
Qed.

Lemma deploy_without_choices (w : World) (network : string) (yes : bool)
    (c : config) (entry : network_entry) :
  w_config w = ReadOk c ->
  networks c !! Js.toLowerCase network = Some entry ->
  truthy_prop (url entry) = true ->
  w_build w = true ->
  w_smartContracts w = Some [] ->
  truthy_prop (recorded c (Js.toLowerCase network)) = false ->
  deploy w network yes
  = ([StepOk "Build project"; StepOk "Generate build.json"; Select []],
     Threw "At least one choice must be selectable").
Proof.
  intros Hc Hn Hu Hb Hs Hr. apply alias_entry_own in Hn.
  apply deploy_stops_in_prepare. unfold prepare. rewrite Hc. cbv zeta.
  rewrite bind_ret_l, Hn, bind_ret_l, Hu. cbn [negb]. rewrite bind_ret_l.
  rewrite Hb, step_ok, (bind_value _ _ _ _ eq_refl).
  rewrite Hs, step_ok, (bind_value _ _ _ _ eq_refl).
  rewrite (identify_without_choices _ _ _ Hr).
  rewrite (bind_stop _ _ _ _ eq_refl). reflexivity.
Qed.

(** The blocks of [prepare] up to the resolver, when nothing stops them. *)
Lemma prepare_reaches_resolver (w : World) (network : string) (c : config)
    (entry : network_entry) (smartContracts : list string) (e : event) :
  w_config w = ReadOk c ->
  networks c !! Js.toLowerCase network = Some entry ->
  truthy_prop (url entry) = true ->
  w_build w = true ->
  w_smartContracts w = Some smartContracts ->
  In e (fst (let* contractName :=
               identifyContract w c smartContracts (Js.toLowerCase network) in
             setDefaultContract c (Js.toLowerCase network) entry contractName)) ->
  In e (fst (prepare w network)).
Proof.
  intros Hc Hn Hu Hb Hs Hin. apply alias_entry_own in Hn.
  unfold prepare. rewrite Hc. cbv zeta.
  apply in_bind_r with (a := c); [reflexivity|]. rewrite Hn.
  apply in_bind_r with (a := entry); [reflexivity|]. rewrite Hu.
  apply in_bind_r with (a := tt); [reflexivity|]. rewrite Hb.
  apply in_bind_r with (a := tt); [reflexivity|]. rewrite Hs.
  apply in_bind_r with (a := smartContracts); [reflexivity|].
  destruct (identifyContract w c smartContracts (Js.toLowerCase network))
    as [t [name | o]] eqn:Hi.
  - rewrite (bind_value _ _ t name eq_refl) in Hin.
    rewrite (bind_value _ _ t name eq_refl). simpl in *.
    apply in_app_or in Hin as [Hin | Hin]; apply in_or_app; [left; assumption|].
    right. destruct (setDefaultContract c (Js.toLowerCase network) entry name)
      as [t' [c' | o]] eqn:Hd; simpl in Hin.
    + rewrite (bind_value _ _ t' c' eq_refl). simpl. apply in_or_app. auto.
    + rewrite (bind_stop _ _ t' o eq_refl). assumption.
  - rewrite (bind_stop _ _ t o eq_refl) in Hin.
    rewrite (bind_stop _ _ t o eq_refl). assumption.
Qed.

Lemma in_deploy_of_prepare (w : World) (network : string) (yes : bool) (e : event) :
  In e (fst (prepare w network)) -> In e (trace (deploy w network yes)).
Proof. intros H. unfold trace, deploy. apply in_run, in_bind_l, H. Qed.

(** C2 as stated fails for a build without contracts: the select prompt is
    requested with an empty list, which the prompt refuses before it asks
    anything, so that the operator selects nothing; whatever the operator
    would answer, deploy ends on the error of the prompt. *)
Lemma resolver_prompts_counterexample :
  chooseSmartContract Scenario.cfg [] "testnet" = EmptyString
  /\ forall select,
       deploy (with_select (with_smartContracts Scenario.world []) select)
         "testnet" false
       = ([StepOk "Build project"; StepOk "Generate build.json"; Select []],
          Threw "At least one choice must be selectable").
Proof.
  split; [reflexivity|]. intros select.
  apply (deploy_without_choices _ "testnet" false Scenario.cfg Scenario.entry);
    reflexivity.
Qed.

(** C2, as amended.  The resolver's decision, in order.  (1) When the
    configuration records a smartContract for the alias (the property is
    present and not empty), [chooseSmartContract] returns it, whatever the
    discovered list holds.  (2) Otherwise, when the list has exactly one
    element, that element is returned.  (3) Otherwise the result is the empty
    string, which is falsy.  With two or more discovered names, a deploy that
    reaches the resolver shows the select prompt over the discovered list,
    and the resolver yields the operator's selection.  With no discovered
    name the select prompt is refused before the operator is asked, and the
    deploy ends on that error. *)
Theorem resolver_decision
    (c : config) (smartContracts : list string) (network : string) :
  (truthy_prop (recorded c network) = true ->
     Some (chooseSmartContract c smartContracts network) = recorded c network)
  /\ (truthy_prop (recorded c network) = false ->
      forall only, smartContracts = [only] ->
      chooseSmartContract c smartContracts network = only)
  /\ (truthy_prop (recorded c network) = false ->
      length smartContracts <> 1%nat ->
      chooseSmartContract c smartContracts network = EmptyString
      /\ truthy (VStr (chooseSmartContract c smartContracts network)) = false
      /\ forall w alias yes entry,
           Js.toLowerCase alias = network ->
           w_config w = ReadOk c ->
           networks c !! network = Some entry ->
           truthy_prop (url entry) = true ->
           w_build w = true ->
           w_smartContracts w = Some smartContracts ->
           (smartContracts <> [] ->
            In (Select smartContracts) (trace (deploy w alias yes))
            /\ identifyContract w c smartContracts network
               = ([Select smartContracts],
                  match w_select w smartContracts with
                  | Some name => inl name
                  | None => inr Cancelled
                  end))
           /\ (smartContracts = [] ->
               deploy w alias yes
               = ([StepOk "Build project"; StepOk "Generate build.json";
                   Select []],
                  Threw "At least one choice must be selectable"))).
Proof.
  split; [|split].
  - apply choose_recorded.
  - intros H only ->. apply choose_single, H.
  - intros H Hl. pose proof (choose_falsy c smartContracts network H Hl) as E.
    split; [exact E|]. split; [rewrite E; reflexivity|].
    intros w alias yes entry <- Hc Hn Hu Hb Hs. split.
    + intros Hne. split; [|apply identify_prompts; assumption].
      apply in_deploy_of_prepare.
      apply (prepare_reaches_resolver w alias c entry smartContracts);
        try assumption.
      apply in_bind_l. rewrite (identify_prompts _ _ _ _ E Hne). left. reflexivity.
    + intros ->.
      apply (deploy_without_choices w alias yes c entry); assumption.
Qed.

Lemma resolver_decision_witness :
  Some (chooseSmartContract Resolver.configured ["Foo"; "Baz"] "testnet")
  = Some "Bar"
  /\ chooseSmartContract Scenario.cfg ["Foo"] "testnet" = "Foo"
  /\ chooseSmartContract Scenario.cfg [] "testnet" = EmptyString
  /\ In (Select ["Foo"; "Baz"]) (trace (deploy Resolver.two "TestNet" false))
  /\ snd (deploy (with_smartContracts Scenario.world []) "TestNet" false)
     = Threw "At least one choice must be selectable".
Proof.
  split; [|split; [|split; [|split]]].
  - destruct (resolver_decision Resolver.configured ["Foo"; "Baz"] "testnet")
      as (H & _).
    exact (H eq_refl).
  - destruct (resolver_decision Scenario.cfg ["Foo"] "testnet") as (_ & H & _).
    apply (H eq_refl "Foo" eq_refl).
  - destruct (resolver_decision Scenario.cfg [] "testnet") as (_ & _ & H).
    destruct (H eq_refl) as (E & _); [simpl; lia | exact E].
  - destruct (resolver_decision Scenario.cfg ["Foo"; "Baz"] "testnet")
      as (_ & _ & H).
    destruct (H eq_refl) as (_ & _ & Hd); [simpl; lia|].
    destruct (Hd Resolver.two "TestNet" false Scenario.entry) as [Hsel _];
      [reflexivity ..|].
    apply Hsel. discriminate.
  - destruct (resolver_decision Scenario.cfg [] "testnet") as (_ & _ & H).
    destruct (H eq_refl) as (_ & _ & Hd); [simpl; lia|].
    destruct (Hd (with_smartContracts Scenario.world []) "TestNet" false
                Scenario.entry) as [_ Hempty]; [reflexivity ..|].
    rewrite (Hempty eq_refl). reflexivity.
Defined.

(** ** Persistence of the contract choice (lines 164-174) *)

Lemma recorded_set_smartContract (c : config) (network : string)
    (entry : network_entry) (name : string) :
  recorded (set_smartContract c network entry name) network = Some name.
Proof. unfold recorded, set_smartContract. simpl. rewrite lookup_insert_eq. reflexivity. Qed.

Lemma identify_recorded (w : World) (c : config) (smartContracts : list string)
    (network name : string) :
  recorded c network = Some name -> name <> EmptyString ->
  identifyContract w c smartContracts network
  = ([StepOk "Choose smart contract"; Log (msg_config_contract name)], inl name).
Proof.
  intros Hr Hne. apply String.eqb_neq in Hne.
  assert (Ht : truthy_prop (recorded c network) = true).
  { rewrite Hr. simpl. rewrite Hne. reflexivity. }
  assert (Hch : chooseSmartContract c smartContracts network = name).
  { unfold chooseSmartContract. rewrite Ht, Hr. reflexivity. }
  unfold identifyContract. rewrite Hch, Ht, Hr. simpl. rewrite Hne. reflexivity.
Qed.

Lemma setDefault_unchanged (c : config) (network : string) (entry : network_entry)
    (name : string) :
  recorded c network = Some name ->
  setDefaultContract c network entry name = ([], inl c).
Proof.
  intros Hr. unfold setDefaultContract.
  rewrite (bool_decide_eq_true_2 _ Hr). reflexivity.
Qed.

Lemma setDefault_writes (c : config) (network : string) (entry : network_entry)
    (name : string) :
  recorded c network <> Some name ->
  setDefaultContract c network entry name
  = ([WriteConfig (set_smartContract c network entry name); Log msg_config_updated],
     inl (set_smartContract c network entry name)).
Proof.
  intros Hr. unfold setDefaultContract.
  rewrite (bool_decide_eq_false_2 _ Hr). reflexivity.
Qed.

Lemma deploy_quiet_when_recorded (w : World) (network : string) (yes : bool)
    (c : config) (name : string) :
  w_config w = ReadOk c ->
  recorded c (Js.toLowerCase network) = Some name ->
  name <> EmptyString ->
  Forall quiet (trace (deploy w network yes)).
Proof.
  intros Hc Hr Hne. unfold trace, deploy. apply always_run.
  apply always_bind.
  - unfold prepare. rewrite Hc. cbv zeta.
    always_tac_with
      ltac:(idtac; match goal with
            | |- always _ (identifyContract _ _ _ _) =>
                rewrite (identify_recorded _ _ _ _ name Hr Hne);
                repeat constructor; discriminate
            | Hv : snd (identifyContract _ _ _ _) = inl ?a
              |- always _ (setDefaultContract _ _ _ ?a) =>
                rewrite (identify_recorded _ _ _ _ name Hr Hne) in Hv;
                injection Hv as <-;
                rewrite (setDefault_unchanged _ _ _ _ Hr);
                constructor
            end)
      ltac:(try (split; discriminate)).
  - intros p _. always_tac ltac:(try (split; discriminate)).
Qed.

(** C8.  The first resolution for an alias, one with no smartContract
    recorded, writes config.json with the chosen name under that alias.
    With a name recorded, every later deploy of the alias chooses that name
    whatever the build holds, never shows the select prompt and never
    rewrites config.json.  A contract name is not empty. *)
Theorem contract_choice_is_persisted_once
    (c : config) (network : string) (entry : network_entry) (name : string) :
  networks c !! Js.toLowerCase network = Some entry ->
  name <> EmptyString ->
  (forall w yes smartContracts t,
      w_config w = ReadOk c ->
      truthy_prop (url entry) = true ->
      w_build w = true ->
      w_smartContracts w = Some smartContracts ->
      smartContract entry = None ->
      identifyContract w c smartContracts (Js.toLowerCase network) = (t, inl name) ->
      In (WriteConfig (set_smartContract c (Js.toLowerCase network) entry name))
         (trace (deploy w network yes)))
  /\ recorded (set_smartContract c (Js.toLowerCase network) entry name)
       (Js.toLowerCase network) = Some name
  /\ (forall w' yes' c',
        recorded c' (Js.toLowerCase network) = Some name ->
        w_config w' = ReadOk c' ->
        (forall smartContracts,
            chooseSmartContract c' smartContracts (Js.toLowerCase network) = name)
        /\ Forall quiet (trace (deploy w' network yes'))).
Proof.
  intros Hn Hne. split; [|split].
  - intros w yes smartContracts t Hc Hu Hb Hs Hnone Hi.
    apply in_deploy_of_prepare.
    apply (prepare_reaches_resolver w network c entry smartContracts);
      try assumption.
    rewrite (bind_value _ _ t name Hi). simpl. apply in_or_app. right.
    rewrite setDefault_writes; [left; reflexivity|].
    unfold recorded. rewrite Hn, Hnone. discriminate.
  - apply recorded_set_smartContract.
  - intros w' yes' c' Hr Hc. split.
    + intros smartContracts.
      assert (Ht : truthy_prop (recorded c' (Js.toLowerCase network)) = true).
      { rewrite Hr. simpl. apply String.eqb_neq in Hne. rewrite Hne. reflexivity. }
      pose proof (choose_recorded c' smartContracts _ Ht) as E.
      rewrite Hr in E. injection E as E. exact E.
    + eapply deploy_quiet_when_recorded; eassumption.
Qed.

Lemma contract_choice_is_persisted_once_witness :
  In (WriteConfig Persistence.after) (trace (deploy Scenario.world "testnet" true))
  /\ chooseSmartContract Persistence.after ["Baz"; "Foo"] "testnet" = "Foo"
  /\ Forall quiet (trace (deploy Persistence.later "testnet" true)).
Proof.
  destruct (contract_choice_is_persisted_once
              Scenario.cfg "testnet" Scenario.entry "Foo" eq_refl)
    as (Hfirst & Hrec & Hlater); [discriminate|].
  split; [|split].
  - apply (Hfirst Scenario.world true ["Foo"]
             [StepOk "Choose smart contract"; Log (msg_only_contract "Foo")]);
      reflexivity.
  - apply (Hlater Persistence.later true Persistence.after); reflexivity.
  - apply (Hlater Persistence.later true Persistence.after); reflexivity.
Defined.

(** ** The timeout of the two network calls (lines 454-485) *)

Lemma sendGraphQL_timeout (b : network_behaviour) :
  exceeds_bound b -> sendGraphQL b = error_result [("message", AbortError)].
Proof.
  unfold sendGraphQL, fetch. destruct b as [ms r | ms err |]; simpl; intros H;
    try reflexivity;
    (assert (E : (ms <? timeout_ms)%N = false) by (apply N.ltb_ge; lia));
    rewrite E; reflexivity.
Qed.

Lemma deploy_requests_bounded (w : World) (network : string) (yes : bool) :
  Forall bounded_request (trace (deploy w network yes)).
Proof.
  unfold trace, deploy. apply always_run.
  always_tac ltac:(try (intros ? ? ? [=]; subst; reflexivity)).
Qed.

(** An answer that arrives before the timer fires, with a success status and
    a JSON body, is what [sendGraphQL] returns. *)
Lemma sendGraphQL_in_time (ms : N) (r : http_response) (json : value) :
  (ms < 20000)%N -> ok r = true -> body r = Some json ->
  sendGraphQL (Responds ms r) = json.
Proof.
  intros Hms Hok Hbody. unfold sendGraphQL, fetch, timeout_ms.
  apply N.ltb_lt in Hms. rewrite Hms, Hbody, Hok. reflexivity.
Qed.

(** C7.  Every request deploy issues, the account query and the submission
    alike, goes through [sendGraphQL] with the 20000 ms abort timer.  A
    request the remote end has not completed within the bound, or never
    completes, resolves to an error result (kind error, with the abort as
    message), and an account query that ran into the bound hands over to the
    nonce prompt.  The timer does not fire early: an answer that arrives
    before 20000 ms is delivered, and the nonce of an account query answered
    in time is used with no prompt. *)
Theorem network_calls_time_out (w : World) (b : network_behaviour) :
  exceeds_bound b ->
  sendGraphQL b = error_result [("message", AbortError)]
  /\ get (sendGraphQL b) "kind" = inr (VStr "error")
  /\ (forall network yes,
        Forall bounded_request (trace (deploy w network yes)))
  /\ (forall endpoint q,
        call_sendGraphQL w endpoint q
        = ([Request endpoint q 20000], inl (sendGraphQL (w_net w endpoint q))))
  /\ (forall endpoint feePayer,
        w_net w endpoint (AccountQuery feePayer) = b ->
        exists t r,
          resolveNonce w endpoint feePayer
          = (Request endpoint (AccountQuery feePayer) 20000 :: Input "nonce" :: t, r))
  /\ (forall ms r json,
        (ms < 20000)%N -> ok r = true -> body r = Some json ->
        sendGraphQL (Responds ms r) = json)
  /\ (forall endpoint feePayer ms r json n,
        w_net w endpoint (AccountQuery feePayer) = Responds ms r ->
        (ms < 20000)%N -> ok r = true -> body r = Some json ->
        get_opt (get_opt (get_opt json "data") "account") "nonce" = n ->
        truthy n = true ->
        resolveNonce w endpoint feePayer
        = ([Request endpoint (AccountQuery feePayer) 20000], inl n)).
Proof.
  intros Hb. pose proof (sendGraphQL_timeout b Hb) as E.
  split; [exact E|]. split; [rewrite E; reflexivity|].
  split; [intros; apply deploy_requests_bounded|].
  split; [reflexivity|].
  split; [|split].
  - intros endpoint feePayer Hnet.
    unfold resolveNonce, call_sendGraphQL, getAccountQuery. rewrite Hnet, E.
    cbv [bind emit ret error_result get_opt get assoc String.eqb Ascii.eqb
         Bool.eqb truthy app].
    destruct (prompt_input "nonce" nonce_validate
                (fun val => ([], inl (nonce_result val))) (w_nonce w))
      as [t [v | o]];
      eexists _, _; reflexivity.
  - apply sendGraphQL_in_time.
  - intros endpoint feePayer ms r json n Hnet Hms Hok Hbody Hn Ht.
    unfold resolveNonce, call_sendGraphQL, getAccountQuery.
    rewrite Hnet, (sendGraphQL_in_time ms r json Hms Hok Hbody).
    cbv [bind emit ret app]. rewrite Hn, Ht. reflexivity.
Qed.

Lemma network_calls_time_out_witness :
  sendGraphQL Slow.late = error_result [("message", AbortError)]
  /\ sendGraphQL Hangs = error_result [("message", AbortError)]
  /\ sendGraphQL
       (Responds 19999 (Scenario.json_ok (Scenario.nonce_reply (VStr "3"))))
     = Scenario.nonce_reply (VStr "3").
Proof.
  split; [|split].
  - destruct (network_calls_time_out Slow.world Slow.late) as (H & _);
      [vm_compute; reflexivity | exact H].
  - destruct (network_calls_time_out Slow.world Hangs I) as (H & _). exact H.
  - destruct (network_calls_time_out Slow.world Hangs I)
      as (_ & _ & _ & _ & _ & Hin & _).
    apply Hin; reflexivity.
Defined.

(** ** The key file (lines 207-218) *)

Lemma deploy_reads_alias_key (w : World) (network : string) (yes : bool) :
  Forall (reads_alias_key network) (trace (deploy w network yes)).
Proof.
  unfold trace, deploy. apply always_run.
  always_tac ltac:(try (intros ? [=]; subst; reflexivity)).
Qed.

(** C9, what the code does.  The key file deploy reads is always
    keys/<alias>.json; the keyPath of the alias is not consulted.  With
    keyPath naming keys/deployer.json, the key signed with and the fee payer
    queried are those of keys/testnet.json, and without that file deploy
    stops on the missing-key message although the configured file exists. *)
Theorem key_file_is_not_keyPath :
  (forall w network yes path,
      In (ReadKey path) (trace (deploy w network yes)) ->
      path = "keys/" +:+ Js.toLowerCase network +:+ ".json")
  /\ (let t := trace (deploy (OtherKey.world OtherKey.both) "testnet" true) in
      In (ReadKey "keys/testnet.json") t
      /\ ~ In (ReadKey "keys/deployer.json") t
      /\ In (Request "https://example/graphql" (AccountQuery "pub:KEY_B") 20000) t
      /\ In (Sign {| feePayer := "pub:KEY_B"; nonce := VStr "3";
                     fee := "0.05000000000"; memo := EmptyString |} "KEY_B") t)
  /\ deploy (OtherKey.world OtherKey.only_configured) "testnet" true
     = ([StepOk "Build project"; StepOk "Generate build.json";
         StepOk "Choose smart contract"; Log (msg_config_contract "Foo");
         ReadKey "keys/testnet.json"; Log msg_no_key], Returned).
Proof.
  split; [|split].
  - intros w network yes path Hin.
    pose proof (deploy_reads_alias_key w network yes) as H.
    rewrite List.Forall_forall in H. exact (H _ Hin path eq_refl).
  - vm_compute. repeat split; try tauto.
    intros H. repeat (destruct H as [H | H]; [discriminate H|]). exact H.
  - vm_compute. reflexivity.
Qed.

(** ** The nonce (lines 267-290) *)

(** A truthy nonce in the reply is the nonce signed with. *)
Lemma resolveNonce_uses_reply (w : World) (endpoint feePayer : string) (n : value) :
  get_opt (get_opt (get_opt (sendGraphQL (w_net w endpoint (AccountQuery feePayer)))
                      "data") "account") "nonce" = n ->
  truthy n = true ->
  resolveNonce w endpoint feePayer
  = ([Request endpoint (AccountQuery feePayer) 20000], inl n).
Proof.
  intros Hn Ht. unfold resolveNonce, call_sendGraphQL, getAccountQuery.
  cbv [bind emit ret app]. rewrite Hn, Ht. reflexivity.
Qed.

(** Otherwise the operator is asked, and the entry the prompt yields is the
    nonce. *)
Lemma resolveNonce_falls_back (w : World) (endpoint feePayer : string) :
  truthy (get_opt (get_opt (get_opt
            (sendGraphQL (w_net w endpoint (AccountQuery feePayer)))
            "data") "account") "nonce") = false ->
  resolveNonce w endpoint feePayer
  = match prompt_input "nonce" nonce_validate
            (fun val => ret (nonce_result val)) (w_nonce w) with
    | (t, inl entered) =>
        (Request endpoint (AccountQuery feePayer) 20000 :: Input "nonce" :: t,
         inl (VStr entered))
    | (t, inr o) =>
        (Request endpoint (AccountQuery feePayer) 20000 :: Input "nonce" :: t,
         inr o)
    end.
Proof.
  intros Ht. unfold resolveNonce, call_sendGraphQL, getAccountQuery.
  cbv [bind emit]. cbn [ret app]. rewrite Ht.
  destruct (prompt_input "nonce" nonce_validate
              (fun val => ret (nonce_result val)) (w_nonce w)) as [t [v | o]];
    cbn [app]; [rewrite app_nil_r|]; reflexivity.
Qed.

(** C5, what the code does.  An entry of three spaces passes the nonce
    prompt's [validate] (it is not empty, and it converts to the number 0, so
    it is not NaN): no message is shown; the [result] callback trims it to
    the empty string, on which the prompt answers with the entry as typed,
    and the transaction is signed with the three spaces as nonce.  A reply
    whose nonce is the number 0 is treated as having none: the operator is
    asked, and the entry is signed with. *)
Theorem nonce_prompt_accepts_blank :
  nonce_validate "   " = None
  /\ nonce_result "   " = EmptyString
  /\ (let t := trace (deploy BlankNonce.blank "testnet" true) in
      existsb is_rejection t = false
      /\ In (Sign {| feePayer := "pub:KEY"; nonce := VStr "   ";
                     fee := "0.05000000000"; memo := EmptyString |} "KEY") t)
  /\ (let t := trace (deploy BlankNonce.zero "testnet" true) in
      In (Input "nonce") t
      /\ In (Sign {| feePayer := "pub:KEY"; nonce := VStr "7";
                     fee := "0.05000000000"; memo := EmptyString |} "KEY") t).
Proof. vm_compute. repeat split; tauto. Qed.

(** ** The submission (lines 363-391) *)

(** A reply that marks the failure on the zkapp object, or that has no zkapp
    object under data.sendZkapp, is reported as a failure. *)
Lemma send_reports_marked_failure (w : World) (p : prepared) (zkapp : value) :
  get_path (sendGraphQL (w_net w (graphQLEndpoint p) (ZkAppMutation (signedParties p))))
    ["data"; "sendZkapp"; "zkapp"] = inr zkapp ->
  truthy zkapp = false \/ get_opt zkapp "kind" = VStr "error" ->
  send w p
  = ([Request (graphQLEndpoint p) (ZkAppMutation (signedParties p)) 20000;
      StepOk "Send to network"; Log msg_failed], inr Returned).
Proof.
  intros Hpath Hfail. unfold send, step, call_sendGraphQL, sendZkAppQuery.
  cbv [bind emit ret app log halt]. rewrite Hpath.
  destruct Hfail as [H | H]; rewrite H; [reflexivity|].
  rewrite orb_true_r. reflexivity.
Qed.

(** The property read data.sendZkapp.zkapp throws on a result without data;
    the error caught becomes the transaction, and it is truthy with no kind. *)
Lemma send_reports_success_on_throw (w : World) (p : prepared) (error : value) :
  get_path (sendGraphQL (w_net w (graphQLEndpoint p) (ZkAppMutation (signedParties p))))
    ["data"; "sendZkapp"; "zkapp"] = inl error ->
  truthy error = true -> get_opt error "kind" = VUndefined ->
  send w p
  = ([Request (graphQLEndpoint p) (ZkAppMutation (signedParties p)) 20000;
      StepOk "Send to network";
      Log (msg_success (display (get_opt error "hash")))], inl tt).
Proof.
  intros Hpath Ht Hk. unfold send, step, call_sendGraphQL, sendZkAppQuery.
  cbv [bind emit ret app log halt]. rewrite Hpath, Ht, Hk. reflexivity.
Qed.

Lemma submissions_app (t t' : list event) :
  submissions (t ++ t') = (submissions t + submissions t')%nat.
Proof. unfold submissions. rewrite List.filter_app, length_app. reflexivity. Qed.

Lemma submissions_none (t : list event) :
  Forall not_submission t -> submissions t = 0%nat.
Proof.
  unfold submissions. induction 1 as [|e t He _ IH]; [reflexivity|].
  simpl. destruct e; simpl; try exact IH.
  rewrite (He _ _ _ eq_refl). exact IH.
Qed.

Lemma confirmation_no_submission (w : World) (yes : bool) :
  always not_submission (confirmation w yes).
Proof. always_tac ltac:(try (intros ? ? ? [=])). Qed.

Lemma send_submits_once (w : World) (p : prepared) :
  submissions (fst (send w p)) = 1%nat.
Proof.
  unfold send, step, call_sendGraphQL, sendZkAppQuery.
  cbv [bind emit ret app log halt].
  destruct (get_path _ _) as [error | zkapp];
    match goal with
    | |- context [if ?b then _ else _] => destruct b
    end; reflexivity.
Qed.

(** No retry: a deploy issues the submission request at most once. *)
Lemma deploy_submits_at_most_once (w : World) (network : string) (yes : bool) :
  (submissions (trace (deploy w network yes)) <= 1)%nat.
Proof.
  unfold trace, deploy.
  assert (Hrun : forall m : M unit, fst (run m) = fst m)
    by (intros [t [[] | o]]; reflexivity).
  rewrite Hrun, fst_bind, submissions_app.
  rewrite (submissions_none _ (prepare_no_submission w network)).
  destruct (snd (prepare w network)) as [p | o]; [|unfold submissions; simpl; lia].
  rewrite fst_bind, submissions_app.
  rewrite (submissions_none _ (confirmation_no_submission w yes)).
  destruct (snd (confirmation w yes)) as [confirm | o];
    [|unfold submissions; simpl; lia].
  rewrite fst_bind, submissions_app.
  destruct (negb _); [unfold submissions; simpl; lia|].
  cbn [snd ret fst]. rewrite send_submits_once. unfold submissions. simpl. lia.
Qed.

(** C6, what the code does.  [sendGraphQL] builds an error result for a
    non-success answer (with the status code when its body is JSON, with the
    parse error alone when it is not) and for a transport failure, but deploy
    reports success, with the hash undefined, when the submission gets
    HTTP 200 with null data and errors, when it gets HTTP 500, and when it
    times out; only a failure marked on the zkapp object is reported as
    one. *)
Theorem submission_failure_reported_as_success :
  sendGraphQL Submission.http_500
  = error_result [("statusCode", VNum 500);
                  ("statusText", VStr "Internal Server Error");
                  ("message", VArr [VStr "boom"])]
  /\ sendGraphQL Submission.http_502_html = error_result [("message", SyntaxError)]
  /\ sendGraphQL Hangs = error_result [("message", AbortError)]
  /\ Submission.reported (Submission.world Submission.graphql_errors)
     = Log (msg_success "undefined")
  /\ Submission.reported (Submission.world Submission.http_500)
     = Log (msg_success "undefined")
  /\ Submission.reported (Submission.world Hangs)
     = Log (msg_success "undefined")
  /\ Submission.reported (Submission.world Submission.marked)
     = Log msg_failed.
Proof. vm_compute. repeat split; reflexivity. Qed.

(** * Properties of the rest of the deploy helpers *)

Example findSmartContracts_samples :
  findSmartContracts
    [("build/src/Add.js", "export class Add extends SmartContract { }");
     ("build/src/index.js", "import { Add } from './Add.js';");
     ("build/src/Two.js",
      "class A extends SmartContract{} CLASS b_2 EXTENDS smartcontract class  extends SmartContract classX extends SmartContract")]
  = ["Add"; "A"; "b_2"; EmptyString]
  /\ findSmartContractToDeploy
       [("build/src/index.js", "import { Add } from './Add.js';");
        ("build/src/Add.js", "export class Add extends SmartContract { }")] "add"
     = Some "Add.js"
  /\ map Scan.basename ["build/src/Add.js"; "Add.js"; "a/b/"; "/"; EmptyString]
     = ["Add.js"; "Add.js"; "b"; EmptyString; EmptyString].
Proof. vm_compute. repeat split; reflexivity. Qed.

(** ** The scan for contract declarations *)

Lemma canon_idempotent (c : ascii) : Scan.canon (Scan.canon c) = Scan.canon c.
Proof. destruct c as [[] [] [] [] [] [] [] []]; reflexivity. Qed.

Lemma is_word_canon (c : ascii) : Scan.is_word (Scan.canon c) = Scan.is_word c.
Proof. destruct c as [[] [] [] [] [] [] [] []]; reflexivity. Qed.

Lemma word_not_space (c : ascii) :
  Scan.is_word c = true -> Scan.same_ci " " c = false.
Proof. destruct c as [[] [] [] [] [] [] [] []]; simpl; intros H; try discriminate H; reflexivity. Qed.

Lemma same_ci_refl (c : ascii) : Scan.same_ci c c = true.
Proof. unfold Scan.same_ci. apply Ascii.eqb_refl. Qed.

Lemma same_ci_canon_r (p c : ascii) :
  Scan.same_ci p (Scan.canon c) = Scan.same_ci p c.
Proof. unfold Scan.same_ci. rewrite canon_idempotent. reflexivity. Qed.

Lemma same_ci_canon_l (p c : ascii) :
  Scan.same_ci (Scan.canon p) c = Scan.same_ci p c.
Proof. unfold Scan.same_ci. rewrite canon_idempotent. reflexivity. Qed.

(** A successful literal match splits the text. *)
Lemma match_lit_some (pat l r : list ascii) :
  Scan.match_lit pat l = Some r ->
  exists m, l = m ++ r /\ map Scan.canon m = map Scan.canon pat.
Proof.
  revert l. induction pat as [|p pat IH]; intros l; simpl.
  - intros [= ->]. exists []. auto.
  - destruct l as [|c l]; [discriminate|].
    destruct (Scan.same_ci p c) eqn:E; [|discriminate].
    intros H. destruct (IH l H) as (m & -> & Hm). exists (c :: m).
    split; [reflexivity|]. simpl. rewrite Hm. f_equal.
    unfold Scan.same_ci in E. apply Ascii.eqb_eq in E. congruence.
Qed.

Lemma match_lit_same (pat m r : list ascii) :
  map Scan.canon m = map Scan.canon pat -> Scan.match_lit pat (m ++ r) = Some r.
Proof.
  revert m. induction pat as [|p pat IH]; intros [|c m]; simpl; try discriminate.
  - reflexivity.
  - intros [= Hc Hm]. unfold Scan.same_ci. rewrite Hc, Ascii.eqb_refl.
    apply IH, Hm.
Qed.

Lemma match_lit_app (p1 p2 l : list ascii) :
  Scan.match_lit (p1 ++ p2) l
  = match Scan.match_lit p1 l with
    | Some r => Scan.match_lit p2 r
    | None => None
    end.
Proof.
  revert l. induction p1 as [|p p1 IH]; intros l; simpl; [reflexivity|].
  destruct l as [|c l]; [reflexivity|]. destruct (Scan.same_ci p c); auto.
Qed.

(** The literal match looks at the pattern up to letter case only. *)
Lemma match_lit_pat_canon (pat pat' l : list ascii) :
  map Scan.canon pat = map Scan.canon pat' ->
  Scan.match_lit pat l = Scan.match_lit pat' l.
Proof.
  revert pat' l. induction pat as [|p pat IH]; intros [|p' pat'] l; simpl;
    try discriminate; [reflexivity|].
  intros [= Hp Hpat]. destruct l as [|c l]; [reflexivity|].
  unfold Scan.same_ci. rewrite Hp. destruct (Ascii.eqb _ _); auto.
Qed.

Lemma take_word_spec (l : list ascii) :
  l = fst (Scan.take_word l) ++ snd (Scan.take_word l)
  /\ forallb Scan.is_word (fst (Scan.take_word l)) = true
  /\ match snd (Scan.take_word l) with
     | c :: _ => Scan.is_word c = false
     | [] => True
     end.
Proof.
  induction l as [|c l (Hl & Hw & Hr)]; simpl; [auto|].
  destruct (Scan.is_word c) eqn:E.
  - destruct (Scan.take_word l) as [w r]. simpl in *.
    rewrite E, Hw. repeat split; [congruence | assumption].
  - simpl. auto.
Qed.

(** A run of word characters followed by something else is what [take_word]
    takes. *)
Lemma take_word_run (w r : list ascii) :
  forallb Scan.is_word w = true ->
  match r with
  | c :: _ => Scan.is_word c = false
  | [] => True
  end ->
  Scan.take_word (w ++ r) = (w, r).
Proof.
  intros Hw Hr. induction w as [|c w IH]; simpl.
  - destruct r as [|c r]; [reflexivity|]. simpl. rewrite Hr. reflexivity.
  - simpl in Hw. apply andb_true_iff in Hw as [Hc Hw]. rewrite Hc, (IH Hw).
    reflexivity.
Qed.

(** What a match is: the keyword, a run of word characters, the rest of the
    declaration, in any letter case of the two literals. *)
Lemma match_at_some (l w : list ascii) (len : nat) :
  Scan.match_at l = Some (w, len) ->
  exists kw ex rest,
    l = kw ++ w ++ ex ++ rest
    /\ map Scan.canon kw = map Scan.canon Scan.kw_class
    /\ forallb Scan.is_word w = true
    /\ map Scan.canon ex = map Scan.canon Scan.kw_extends
    /\ len = (length kw + length w + length ex)%nat.
Proof.
  unfold Scan.match_at.
  destruct (Scan.match_lit Scan.kw_class l) as [r|] eqn:Hk; [|discriminate].
  destruct (match_lit_some _ _ _ Hk) as (kw & -> & Hkw).
  pose proof (take_word_spec r) as (Hr & Hw & _).
  destruct (Scan.take_word r) as [w0 r'] eqn:Ht. cbn [fst snd] in *.
  destruct (Scan.match_lit Scan.kw_extends r') as [rest|] eqn:He; [|discriminate].
  destruct (match_lit_some _ _ _ He) as (ex & -> & Hex).
  intros [= <- <-]. exists kw, ex, rest. subst r.
  repeat split; try assumption.
  rewrite <- (length_map Scan.canon kw), Hkw, length_map.
  rewrite <- (length_map Scan.canon ex), Hex, length_map. reflexivity.
Qed.

Lemma match_at_declaration (kw w ex rest : list ascii) :
  map Scan.canon kw = map Scan.canon Scan.kw_class ->
  forallb Scan.is_word w = true ->
  map Scan.canon ex = map Scan.canon Scan.kw_extends ->
  Scan.match_at (kw ++ w ++ ex ++ rest)
  = Some (w, (length Scan.kw_class + length w + length Scan.kw_extends)%nat).
Proof.
  intros Hkw Hw Hex. unfold Scan.match_at.
  rewrite (match_lit_same _ _ _ Hkw).
  assert (Hsp : match ex ++ rest with
                | c :: _ => Scan.is_word c = false
                | [] => True
                end).
  { destruct ex as [|e ex]; [discriminate Hex|]. simpl in Hex.
    injection Hex as He _. simpl.
    rewrite <- is_word_canon, He. reflexivity. }
  rewrite (take_word_run w (ex ++ rest) Hw Hsp).
  rewrite (match_lit_same _ _ _ Hex). reflexivity.
Qed.

(** Matching looks at the text up to letter case. *)
Lemma match_lit_map_canon (pat l : list ascii) :
  Scan.match_lit pat (map Scan.canon l)
  = option_map (map Scan.canon) (Scan.match_lit pat l).
Proof.
  revert l. induction pat as [|p pat IH]; intros l; simpl; [reflexivity|].
  destruct l as [|c l]; [reflexivity|]. simpl.
  rewrite same_ci_canon_r. destruct (Scan.same_ci p c); auto.
Qed.

Lemma take_word_map_canon (l : list ascii) :
  Scan.take_word (map Scan.canon l)
  = (map Scan.canon (fst (Scan.take_word l)),
     map Scan.canon (snd (Scan.take_word l))).
Proof.
  induction l as [|c l IH]; simpl; [reflexivity|].
  rewrite is_word_canon. destruct (Scan.is_word c); [|reflexivity].
  rewrite IH. destruct (Scan.take_word l). reflexivity.
Qed.

Lemma match_at_map_canon (l : list ascii) :
  Scan.match_at (map Scan.canon l) = None <-> Scan.match_at l = None.
Proof.
  unfold Scan.match_at. rewrite match_lit_map_canon.
  destruct (Scan.match_lit Scan.kw_class l) as [r|]; cbn [option_map]; [|tauto].
  rewrite take_word_map_canon. destruct (Scan.take_word r) as [w r'].
  cbn [fst snd]. rewrite match_lit_map_canon.
  destruct (Scan.match_lit Scan.kw_extends r'); cbn [option_map];
    split; congruence.
Qed.

(** No match begins inside the keyword of a match. *)
Lemma no_match_in_keyword (k : nat) (X : list ascii) :
  (0 < k <= 5)%nat -> Scan.match_at (skipn k Kc ++ X) = None.
Proof.
  intros Hk. do 6 (destruct k as [|k]; [try lia; reflexivity|]). lia.
Qed.

(** No match begins inside the tail of a match. *)
Lemma no_match_in_tail (j : nat) (X : list ascii) :
  (j < 22)%nat -> Scan.match_at (skipn j Ke ++ X) = None.
Proof.
  intros Hj. do 22 (destruct j as [|j]; [reflexivity|]). lia.
Qed.

(** No match begins inside the name of a match. *)
Lemma no_match_in_name (W X : list ascii) :
  W <> [] -> forallb Scan.is_word W = true ->
  Scan.match_at (W ++ Ke ++ X) = None.
Proof.
  intros Hne Hw.
  destruct W as [|c1 [|c2 [|c3 [|c4 [|c5 [|c6 W]]]]]]; [congruence| | | | | |].
  1-5: unfold Scan.match_at; cbn [app Scan.match_lit Scan.kw_class Js.chars
         list_ascii_of_string Ke Scan.kw_extends map];
       repeat match goal with
              | |- context [Scan.same_ci ?p ?c] =>
                  lazymatch c with
                  | Ascii _ _ _ _ _ _ _ _ => fail
                  | Scan.canon _ => fail
                  | _ => destruct (Scan.same_ci p c)
                  end
              end; reflexivity.
  unfold Scan.match_at.
  cbn [app Scan.match_lit Scan.kw_class Js.chars list_ascii_of_string].
  simpl in Hw. repeat (apply andb_true_iff in Hw as [? Hw]).
  rewrite (word_not_space c6) by assumption.
  repeat match goal with
         | |- context [if Scan.same_ci ?p ?c then _ else _] =>
             destruct (Scan.same_ci p c)
         end; reflexivity.
Qed.

(** Matches do not overlap: no match begins inside another one. *)
Lemma matches_do_not_overlap (l w : list ascii) (len k : nat) :
  Scan.match_at l = Some (w, len) ->
  (0 < k < len)%nat ->
  Scan.match_at (skipn k l) = None.
Proof.
  intros Hm Hk.
  destruct (match_at_some _ _ _ Hm) as (kw & ex & rest & -> & Hkw & Hw & Hex & ->).
  apply match_at_map_canon. rewrite <- skipn_map, !map_app.
  fold Kc in Hkw. fold Ke in Hex. rewrite Hkw, Hex.
  assert (Hlk : length kw = 6%nat)
    by (rewrite <- (length_map Scan.canon kw), Hkw; reflexivity).
  assert (Hle : length ex = 22%nat)
    by (rewrite <- (length_map Scan.canon ex), Hex; reflexivity).
  set (W := map Scan.canon w). set (R := map Scan.canon rest).
  assert (HW : forallb Scan.is_word W = true).
  { subst W. rewrite forallb_forall in *. intros c Hc.
    apply in_map_iff in Hc as (c' & <- & Hc'). rewrite is_word_canon. auto. }
  assert (HlW : length W = length w) by (subst W; apply length_map).
  destruct (Nat.le_gt_cases k 5) as [H5 | H5].
  - rewrite skipn_app. replace (k - length Kc)%nat with 0%nat by (cbn; lia).
    cbn [skipn]. apply no_match_in_keyword. lia.
  - rewrite skipn_app. rewrite (skipn_all2 Kc) by (cbn; lia). cbn [app].
    replace (k - length Kc)%nat with (k - 6)%nat by reflexivity.
    destruct (Nat.lt_ge_cases (k - 6) (length W)) as [Hin | Hout].
    + rewrite skipn_app. replace (k - 6 - length W)%nat with 0%nat by lia.
      cbn [skipn]. apply no_match_in_name.
      * intros E. apply (f_equal (@length ascii)) in E.
        rewrite length_skipn in E. simpl in E. lia.
      * rewrite forallb_forall in *. intros c Hc. apply HW.
        rewrite <- (firstn_skipn (k - 6) W). apply in_or_app. auto.
    + rewrite skipn_app. rewrite (skipn_all2 W) by lia. cbn [app].
      rewrite skipn_app. replace (k - 6 - length W - length Ke)%nat with 0%nat
        by (cbn; lia).
      cbn [skipn]. apply no_match_in_tail. lia.
Qed.

(** The scan reports every position where the expression matches, as long
    as no match begins at the positions it skips. *)
Lemma scan_complete (l : list ascii) :
  forall skip i w len,
    (forall k, (k < skip)%nat -> Scan.match_at (skipn k l) = None) ->
    Scan.match_at (skipn i l) = Some (w, len) ->
    In (Js.str w) (Scan.scan skip l).
Proof.
  induction l as [|c l IH]; intros skip i w len Hskip Hm.
  - rewrite skipn_nil in Hm. discriminate Hm.
  - destruct skip as [|n]; cbn [Scan.scan].
    + destruct (Scan.match_at (c :: l)) as [[w0 len0]|] eqn:E0.
      * destruct i as [|i].
        -- cbn [skipn] in Hm. rewrite E0 in Hm. injection Hm as -> _.
           left. reflexivity.
        -- right. apply (IH _ i w len); [|exact Hm].
           intros k Hk.
           apply (matches_do_not_overlap (c :: l) w0 len0 (S k) E0). lia.
      * destruct i as [|i]; [cbn [skipn] in Hm; congruence|].
        apply (IH _ i w len); [intros k Hk; lia | exact Hm].
    + destruct i as [|i].
      * rewrite (Hskip 0%nat) in Hm by lia. discriminate Hm.
      * apply (IH _ i w len); [|exact Hm].
        intros k Hk. apply (Hskip (S k)). lia.
Qed.

Lemma scan_sound (l : list ascii) :
  forall skip name,
    In name (Scan.scan skip l) ->
    exists pre w len,
      name = Js.str w /\ Scan.match_at (skipn (length pre) l) = Some (w, len)
      /\ pre = firstn (length pre) l /\ (length pre <= length l)%nat.
Proof.
  induction l as [|c l IH]; intros skip name Hin; [destruct Hin|].
  assert (Hlater : forall skip', In name (Scan.scan skip' l) ->
            exists pre w len,
              name = Js.str w
              /\ Scan.match_at (skipn (length pre) (c :: l)) = Some (w, len)
              /\ pre = firstn (length pre) (c :: l)
              /\ (length pre <= length (c :: l))%nat).
  { intros skip' H. destruct (IH _ _ H) as (pre & w & len & -> & Hm & Hp & Hl).
    exists (c :: pre), w, len. simpl. repeat split; [exact Hm | congruence | lia]. }
  destruct skip as [|n]; cbn [Scan.scan] in Hin.
  - destruct (Scan.match_at (c :: l)) as [[w0 len0]|] eqn:E0.
    + destruct Hin as [<- | Hin]; [|eauto].
      exists [], w0, len0. simpl. repeat split; [exact E0 | lia].
    + eauto.
  - eauto.
Qed.

Lemma str_chars (s : string) : Js.str (Js.chars s) = s.
Proof. apply string_of_list_ascii_of_string. Qed.

Lemma matchAll_declares (content name : string) :
  In name (Scan.matchAll content) <-> declares content name.
Proof.
  unfold Scan.matchAll, declares. split.
  - intros Hin.
    destruct (scan_sound _ _ _ Hin) as (pre & w & len & -> & Hm & Hp & _).
    destruct (match_at_some _ _ _ Hm) as (kw & ex & rest & Hl & Hkw & Hw & Hex & _).
    exists pre, kw, ex, rest. rewrite chars_str.
    repeat split; try assumption.
    rewrite <- (firstn_skipn (length pre) (Js.chars content)), <- Hp, Hl.
    reflexivity.
  - intros (pre & kw & ex & post & Hl & Hkw & Hex & Hw).
    rewrite <- (str_chars name).
    apply (scan_complete _ 0 (length pre) _
             (length Scan.kw_class + length (Js.chars name)
              + length Scan.kw_extends)); [intros k Hk; lia|].
    rewrite Hl, skipn_app, skipn_all, Nat.sub_diag. cbn [skipn app].
    apply match_at_declaration; assumption.
Qed.

(** X1.  findSmartContracts returns exactly the declared names: a name is in
    the result if and only if some file of the build holds the word class, a
    space, the name as a run of word characters, and extends SmartContract,
    the keywords in any letter case.  No declaration is hidden by another
    one, and every name returned is made of word characters. *)
Theorem findSmartContracts_finds_declarations
    (files : list build_file) (name : string) :
  In name (findSmartContracts files)
  <-> exists file, In file files /\ declares (snd file) name.
Proof.
  unfold findSmartContracts. rewrite in_flat_map. split.
  - intros (file & Hf & Hin). exists file. split; [assumption|].
    apply matchAll_declares, Hin.
  - intros (file & Hf & Hd). exists file. split; [assumption|].
    apply matchAll_declares, Hd.
Qed.

Lemma test_lit_found (pat pre l r : list ascii) :
  Scan.match_lit pat l = Some r -> Scan.test_lit pat (pre ++ l) = true.
Proof.
  intros H. induction pre as [|c pre IH]; cbn [app].
  - destruct l; simpl; rewrite H; reflexivity.
  - simpl. destruct (Scan.match_lit pat (c :: pre ++ l)); [reflexivity | exact IH].
Qed.

Lemma declares_test (content name : string) :
  declares content name ->
  Scan.test_lit (declaration name) (Js.chars content) = true.
Proof.
  intros (pre & kw & ex & post & -> & Hkw & Hex & _).
  apply test_lit_found with (r := post). unfold declaration.
  rewrite match_lit_app, (match_lit_same _ _ _ Hkw).
  rewrite match_lit_app, (match_lit_same _ (Js.chars name) _ eq_refl).
  apply match_lit_same, Hex.
Qed.

(** X2.  Every contract findSmartContracts discovers is located by
    findSmartContractToDeploy: the search for a discovered name returns the
    base name of a file of the build. *)
Theorem discovered_contract_is_located
    (files : list build_file) (name : string) :
  In name (findSmartContracts files) ->
  exists file,
    In file files
    /\ findSmartContractToDeploy files name = Some (Scan.basename (fst file)).
Proof.
  intros H. unfold findSmartContracts in H.
  apply in_flat_map in H as (file & Hf & Hd). apply matchAll_declares in Hd.
  unfold findSmartContractToDeploy.
  destruct (List.find (fun file => Scan.test_lit (declaration name)
                                     (Js.chars (snd file))) files)
    as [found|] eqn:E.
  - exists found. split; [|reflexivity]. apply (List.find_some _ _ E).
  - pose proof (List.find_none _ _ E file Hf) as Hn. cbv beta in Hn.
    rewrite (declares_test _ _ Hd) in Hn. discriminate Hn.
Qed.

Lemma discovered_contract_is_located_witness :
  exists file,
    In file [("build/src/index.js", "import { Add } from './Add.js';");
             ("build/src/Add.js", "export class Add extends SmartContract { }")]
    /\ findSmartContractToDeploy
         [("build/src/index.js", "import { Add } from './Add.js';");
          ("build/src/Add.js", "export class Add extends SmartContract { }")]
         "Add"
       = Some (Scan.basename (fst file)).
Proof.
  apply discovered_contract_is_located. vm_compute. tauto.
Defined.

(** X3.  The search for the file of a contract ignores the letter case of
    the name: two names of word characters that differ in letter case only
    find the same file, so that the file found for Foo may be one that
    declares foo. *)
Theorem contract_file_search_ignores_case
    (files : list build_file) (name name' : string) :
  word_name name -> word_name name' -> same_name_ci name name' ->
  findSmartContractToDeploy files name = findSmartContractToDeploy files name'.
Proof.
  intros _ _ Hci. unfold findSmartContractToDeploy.
  assert (E : forall l, Scan.test_lit (declaration name) l
                        = Scan.test_lit (declaration name') l).
  { assert (Hp : map Scan.canon (declaration name)
                 = map Scan.canon (declaration name')).
    { unfold declaration. rewrite !map_app. unfold same_name_ci in Hci.
      rewrite Hci. reflexivity. }
    induction l as [|c l IH]; cbn [Scan.test_lit];
      rewrite (match_lit_pat_canon _ _ _ Hp);
      destruct (Scan.match_lit (declaration name') _); auto. }
  induction files as [|file files IH]; cbn [List.find]; [reflexivity|].
  rewrite E. destruct (Scan.test_lit _ _); [reflexivity | exact IH].
Qed.

Lemma contract_file_search_ignores_case_witness :
  findSmartContractToDeploy
    [("build/src/lower.js", "class foo extends SmartContract {}");
     ("build/src/Foo.js", "class Foo extends SmartContract {}")] "Foo"
  = Some "lower.js".
Proof.
  rewrite (contract_file_search_ignores_case _ "Foo" "foo");
    [reflexivity | reflexivity | reflexivity | reflexivity].
Defined.

(** ** The module deploy imports *)

Lemma chars_append (a b : string) : Js.chars (a +:+ b) = Js.chars a ++ Js.chars b.
Proof.
  induction a as [|c a IH]; [reflexivity|].
  change (String c a +:+ b) with (String c (a +:+ b)).
  cbn [Js.chars list_ascii_of_string app]. f_equal. exact IH.
Qed.

Lemma append_assoc' (a b c : string) : (a +:+ b) +:+ c = a +:+ (b +:+ c).
Proof.
  rewrite <- (str_chars ((a +:+ b) +:+ c)), <- (str_chars (a +:+ (b +:+ c))).
  rewrite !chars_append, app_assoc. reflexivity.
Qed.

Lemma append_cancel_l (a x y : string) : a +:+ x = a +:+ y -> x = y.
Proof.
  intros H. apply (f_equal Js.chars) in H. rewrite !chars_append in H.
  apply app_inv_head in H. rewrite <- (str_chars x), <- (str_chars y), H.
  reflexivity.
Qed.

Lemma after_last_slash_plain (acc l : list ascii) :
  no_slash l = true -> Scan.after_last_slash acc l = acc ++ l.
Proof.
  revert acc. induction l as [|c l IH]; intros acc; simpl.
  - intros _. rewrite app_nil_r. reflexivity.
  - intros H. apply andb_true_iff in H as [Hc Hl].
    apply negb_true_iff in Hc. rewrite Hc, (IH _ Hl), <- app_assoc. reflexivity.
Qed.

Lemma after_last_slash_cut (acc a b : list ascii) :
  Scan.after_last_slash acc (a ++ "/"%char :: b) = Scan.after_last_slash [] b.
Proof.
  revert acc. induction a as [|c a IH]; intros acc; simpl; [reflexivity|].
  destruct (Js.code c =? 47)%N; apply IH.
Qed.

Lemma after_last_slash_no_slash (acc l : list ascii) :
  no_slash acc = true -> no_slash (Scan.after_last_slash acc l) = true.
Proof.
  revert acc. induction l as [|c l IH]; intros acc Hacc; simpl; [assumption|].
  destruct (Js.code c =? 47)%N eqn:E.
  - apply IH. reflexivity.
  - apply IH. unfold no_slash. rewrite forallb_app. cbn [forallb].
    unfold no_slash in Hacc. rewrite Hacc, E. reflexivity.
Qed.

Lemma drop_slashes_js (stem : string) :
  rev (Scan.drop_slashes (rev (Js.chars (stem +:+ ".js")))) = Js.chars (stem +:+ ".js").
Proof.
  rewrite chars_append. change (Js.chars ".js") with ("."%char :: "j"%char :: ["s"%char]).
  rewrite rev_app_distr. cbn [rev app Scan.drop_slashes].
  change (Js.code "s" =? 47)%N with false. cbv iota.
  change ("s"%char :: "j"%char :: "."%char :: rev (Js.chars stem))
    with (rev ["."%char; "j"%char; "s"%char] ++ rev (Js.chars stem)).
  rewrite <- rev_app_distr, rev_involutive. reflexivity.
Qed.

(** The base name of a .js file below a directory. *)
Lemma basename_below (dir stem : string) :
  Scan.basename (dir +:+ "/" +:+ stem +:+ ".js")
  = Js.str (Scan.after_last_slash [] (Js.chars (stem +:+ ".js"))).
Proof.
  unfold Scan.basename.
  replace (dir +:+ "/" +:+ stem +:+ ".js") with ((dir +:+ "/" +:+ stem) +:+ ".js")
    by (rewrite !append_assoc'; reflexivity).
  rewrite drop_slashes_js. f_equal.
  rewrite !chars_append. change (Js.chars "/") with ["/"%char].
  rewrite <- !app_assoc. cbn [app]. rewrite after_last_slash_cut.
  rewrite <- chars_append. reflexivity.
Qed.

(** X4.  deploy imports the contract from build/src/ followed by the base
    name of the file the declaration was found in.  For a file of the build
    that the glob yields (a .js file below build/), this is the file itself
    exactly when the file lies directly in build/src; a contract declared in
    a subdirectory of build/src, or elsewhere below build/, is imported from
    another path. *)
Theorem import_hits_only_files_in_build_src (DIR stem : string) :
  let file := DIR +:+ "/build/" +:+ stem +:+ ".js" in
  import_path DIR (Scan.basename file) = file
  <-> exists name, stem = "src/" +:+ name /\ no_slash (Js.chars name) = true.
Proof.
  cbv zeta.
  replace (DIR +:+ "/build/" +:+ stem +:+ ".js")
    with ((DIR +:+ "/build") +:+ "/" +:+ stem +:+ ".js")
    by (rewrite !append_assoc'; reflexivity).
  rewrite basename_below. unfold import_path.
  set (b := Scan.after_last_slash [] (Js.chars (stem +:+ ".js"))).
  assert (Hb : no_slash b = true) by (apply after_last_slash_no_slash; reflexivity).
  replace (DIR +:+ "/build/src/" +:+ Js.str b)
    with ((DIR +:+ "/build") +:+ "/" +:+ "src/" +:+ Js.str b)
    by (rewrite !append_assoc'; reflexivity).
  split.
  - intros H. apply append_cancel_l, append_cancel_l in H.
    (* src/ ++ b = stem ++ .js *)
    assert (Hc : Js.chars "src/" ++ b = Js.chars stem ++ Js.chars ".js").
    { rewrite <- chars_append, <- H, chars_append, chars_str. reflexivity. }
    (* b ends in .js: take it off *)
    assert (Hrev : rev b = "s"%char :: "j"%char :: "."%char
                           :: skipn 3 (rev b)
                   /\ rev (Js.chars stem) = skipn 3 (rev b) ++ rev (Js.chars "src/")).
    { apply (f_equal (@rev ascii)) in Hc. rewrite !rev_app_distr in Hc.
      cbn [Js.chars list_ascii_of_string rev app] in Hc.
      destruct (rev b) as [|c1 [|c2 [|c3 rb]]].
      - cbn in Hc. discriminate Hc.
      - cbn in Hc. injection Hc as -> Hc.
        destruct (rev (Js.chars stem)) as [|? [|? ?]]; cbn in Hc; discriminate Hc.
      - cbn in Hc. injection Hc as -> -> Hc.
        destruct (rev (Js.chars stem)) as [|? ?]; cbn in Hc; discriminate Hc.
      - cbn in Hc. injection Hc as -> -> -> Hc. cbn [skipn].
        split; [reflexivity|]. cbn. symmetry. exact Hc. }
    destruct Hrev as [Hrb Hrs].
    exists (Js.str (rev (skipn 3 (rev b)))). split.
    + rewrite <- (str_chars stem), <- (rev_involutive (Js.chars stem)), Hrs.
      rewrite rev_app_distr, rev_involutive.
      rewrite <- (str_chars ("src/" +:+ _)), chars_append, chars_str. reflexivity.
    + rewrite chars_str. unfold no_slash in *.
      rewrite forallb_forall in *. intros c Hc'. apply Hb.
      apply in_rev. rewrite Hrb. right. right. right.
      apply in_rev in Hc'. exact Hc'.
  - intros (name & -> & Hn). do 2 f_equal. subst b.
    rewrite !chars_append. change (Js.chars "src/")
      with ("s"%char :: "r"%char :: "c"%char :: ["/"%char]).
    rewrite <- app_assoc.
    change (("s"%char :: "r"%char :: "c"%char :: ["/"%char])
            ++ Js.chars name ++ Js.chars ".js")
      with (("s"%char :: "r"%char :: ["c"%char]) ++ "/"%char
            :: (Js.chars name ++ Js.chars ".js")).
    rewrite after_last_slash_cut, after_last_slash_plain.
    + cbn [app]. rewrite <- chars_append, str_chars, append_assoc'. reflexivity.
    + unfold no_slash in *. rewrite forallb_app, Hn. reflexivity.
Qed.

(** ** More on deploy *)

Lemma bind_inv {A B} (m : M A) (k : A -> M B) (t : list event) (b : B) :
  bind m k = (t, inl b) ->
  exists a t1 t2, m = (t1, inl a) /\ k a = (t2, inl b) /\ t = t1 ++ t2.
Proof.
  destruct m as [t1 [a | o]]; unfold bind.
  - destruct (k a) as [t2 r] eqn:E. intros [= <- ->]. eauto 6.
  - discriminate.
Qed.

Lemma setDefault_keeps_url (c c' : config) (alias : string)
    (entry : network_entry) (name : string) :
  alias_entry c alias = Some entry ->
  snd (setDefaultContract c alias entry name) = inl c' ->
  match alias_entry c' alias with
  | Some entry' => url entry'
  | None => None
  end = url entry.
Proof.
  intros Hn. unfold setDefaultContract.
  destruct (negb (bool_decide _)).
  - cbv [bind emit log ret snd]. intros [= <-].
    unfold alias_entry, set_smartContract. cbn [networks].
    rewrite lookup_insert_eq. reflexivity.
  - cbv [ret snd]. intros [= <-]. rewrite Hn. reflexivity.
Qed.

(** The endpoint both requests go to. *)
Lemma prepare_endpoint (w : World) (network : string) (c : config)
    (entry : network_entry) (u : string) (p : prepared) :
  w_config w = ReadOk c ->
  networks c !! Js.toLowerCase network = Some entry ->
  url entry = Some u ->
  snd (prepare w network) = inl p ->
  graphQLEndpoint p = u.
Proof.
  intros Hc Hn Hu H. apply alias_entry_own in Hn.
  unfold prepare in H. rewrite Hc in H. cbv zeta in H.
  rewrite bind_ret_l, Hn, bind_ret_l in H.
  repeat (apply bind_snd_inl in H as (? & ? & H)).
  cbv [ret snd] in H. injection H as <-. cbn [graphQLEndpoint].
  match goal with
  | Hs : snd (setDefaultContract _ _ _ _) = inl _ |- _ =>
      rewrite (setDefault_keeps_url _ _ _ _ _ Hn Hs), Hu
  end. reflexivity.
Qed.

(** X5.  Every request of a deploy, the account query and the submission,
    goes to the url the configuration records for the alias; the default
    endpoint of line 61 is never used. *)
Theorem requests_go_to_the_alias_url
    (w : World) (network : string) (yes : bool) (c : config)
    (entry : network_entry) (u : string) :
  w_config w = ReadOk c ->
  networks c !! Js.toLowerCase network = Some entry ->
  url entry = Some u ->
  Forall (request_to u) (trace (deploy w network yes)).
Proof.
  intros Hc Hn Hu. pose proof (alias_entry_own _ _ _ Hn) as Hn'.
  unfold trace, deploy. apply always_run.
  apply always_bind.
  - always_tac ltac:(try (intros ? ? ? [=])).
    subst.
    match goal with
    | Hs : snd (setDefaultContract ?a _ ?e _) = inl _,
      Hl : alias_entry ?a _ = Some ?e |- _ =>
        rewrite (setDefault_keeps_url _ _ _ _ _ Hl Hs)
    end.
    match goal with
    | |- default _ (url ?e) = _ => replace (url e) with (Some u) by congruence
    end. reflexivity.
  - intros p Hp. pose proof (prepare_endpoint _ _ _ _ _ _ Hc Hn Hu Hp) as E.
    always_tac ltac:(try (intros ? ? ? [=]; congruence)).
Qed.

Lemma requests_go_to_the_alias_url_witness :
  Forall (request_to "https://example/graphql")
    (trace (deploy Scenario.world "testnet" true)).
Proof.
  apply (requests_go_to_the_alias_url Scenario.world "testnet" true
           Scenario.cfg Scenario.entry); reflexivity.
Defined.

Lemma deploy_writes_only_contract (w : World) (network : string) (yes : bool)
    (c : config) (entry : network_entry) :
  w_config w = ReadOk c ->
  networks c !! Js.toLowerCase network = Some entry ->
  Forall (writes_only_contract c (Js.toLowerCase network) entry)
         (trace (deploy w network yes)).
Proof.
  intros Hc Hn. pose proof (alias_entry_own _ _ _ Hn) as Hn'.
  unfold trace, deploy. apply always_run.
  always_tac ltac:(try (intros ? [=])).
  subst. eexists. f_equal; congruence.
Qed.

(** X6.  A rewrite of config.json by deploy changes the smartContract of the
    alias deployed and nothing else: every other alias keeps its entry, and
    the alias keeps its url and its keyPath. *)
Theorem config_rewrite_touches_only_the_contract
    (w : World) (network : string) (yes : bool) (c c' : config)
    (entry : network_entry) :
  w_config w = ReadOk c ->
  networks c !! Js.toLowerCase network = Some entry ->
  In (WriteConfig c') (trace (deploy w network yes)) ->
  (forall alias, alias <> Js.toLowerCase network ->
     networks c' !! alias = networks c !! alias)
  /\ exists name,
       networks c' !! Js.toLowerCase network
       = Some {| url := url entry; keyPath := keyPath entry;
                 smartContract := Some name |}.
Proof.
  intros Hc Hn Hin.
  pose proof (deploy_writes_only_contract w network yes c entry Hc Hn) as H.
  rewrite List.Forall_forall in H. destruct (H _ Hin c' eq_refl) as (name & ->).
  unfold set_smartContract. cbn [networks]. split.
  - intros alias Ha. apply lookup_insert_ne. congruence.
  - exists name. apply lookup_insert_eq.
Qed.

Lemma config_rewrite_touches_only_the_contract_witness :
  (forall alias, alias <> "testnet" ->
     networks Persistence.after !! alias = networks Scenario.cfg !! alias)
  /\ exists name,
       networks Persistence.after !! "testnet"
       = Some {| url := url Scenario.entry; keyPath := keyPath Scenario.entry;
                 smartContract := Some name |}.
Proof.
  apply (config_rewrite_touches_only_the_contract Scenario.world "testnet" true
           Scenario.cfg Persistence.after Scenario.entry);
    [reflexivity | reflexivity | vm_compute; tauto].
Defined.

(** X7.  The choice of contract is written to config.json before the
    contract is looked up in the build: when the first resolution for an
    alias yields a name whose module cannot be imported, deploy stops on the
    message about the build directory, and config.json has already been
    rewritten to always use that name. *)
Theorem contract_is_persisted_before_it_is_validated
    (w : World) (network : string) (yes : bool) (c : config)
    (entry : network_entry) (smartContracts : list string)
    (t : list event) (name : string) :
  w_config w = ReadOk c ->
  networks c !! Js.toLowerCase network = Some entry ->
  truthy_prop (url entry) = true ->
  w_build w = true ->
  w_smartContracts w = Some smartContracts ->
  smartContract entry = None ->
  identifyContract w c smartContracts (Js.toLowerCase network) = (t, inl name) ->
  w_import w name = None ->
  deploy w network yes
  = ([StepOk "Build project"; StepOk "Generate build.json"] ++ t
     ++ [WriteConfig (set_smartContract c (Js.toLowerCase network) entry name);
         Log msg_config_updated; Log (msg_not_in_build name)],
     Returned).
Proof.
  intros Hc Hn Hu Hb Hs Hnone Hi Himp.
  pose proof (alias_entry_own _ _ _ Hn) as Hn'.
  apply deploy_stops_in_prepare. unfold prepare. rewrite Hc. cbv zeta.
  rewrite bind_ret_l, Hn', bind_ret_l, Hu. cbn [negb]. rewrite bind_ret_l.
  rewrite Hb, step_ok, (bind_value _ _ _ _ eq_refl).
  rewrite Hs, step_ok, (bind_value _ _ _ _ eq_refl).
  rewrite (bind_value _ _ _ _ Hi).
  rewrite setDefault_writes by (unfold recorded; rewrite Hn, Hnone; discriminate).
  rewrite (bind_value _ _ _ _ eq_refl). rewrite Himp.
  rewrite (bind_stop (log (msg_not_in_build name) ;;; halt Returned) _
             [Log (msg_not_in_build name)] Returned eq_refl).
  cbn [fst snd]. reflexivity.
Qed.

Lemma contract_is_persisted_before_it_is_validated_witness :
  deploy Stale.world "testnet" true
  = ([StepOk "Build project"; StepOk "Generate build.json"]
     ++ [Select ["Foo"; "Baz"]]
     ++ [WriteConfig (set_smartContract Scenario.cfg (Js.toLowerCase "testnet")
                        Scenario.entry "Baz");
         Log msg_config_updated; Log (msg_not_in_build "Baz")],
     Returned).
Proof.
  apply (contract_is_persisted_before_it_is_validated Stale.world "testnet" true
           Scenario.cfg Scenario.entry ["Foo"; "Baz"]); reflexivity.
Defined.

(** X8.  Leaving the selection among the discovered contracts with ctrl+C
    ends the deploy at once: nothing is written to config.json, nothing is
    asked of the network.  (A build without contracts never gets to the
    operator: the select prompt is refused.) *)
Theorem cancelled_selection_changes_nothing
    (w : World) (network : string) (yes : bool) (c : config)
    (entry : network_entry) (smartContracts : list string) :
  w_config w = ReadOk c ->
  networks c !! Js.toLowerCase network = Some entry ->
  truthy_prop (url entry) = true ->
  w_build w = true ->
  w_smartContracts w = Some smartContracts ->
  truthy_prop (smartContract entry) = false ->
  length smartContracts <> 1%nat ->
  smartContracts <> [] ->
  w_select w smartContracts = None ->
  deploy w network yes
  = ([StepOk "Build project"; StepOk "Generate build.json";
      Select smartContracts], Cancelled).
Proof.
  intros Hc Hn Hu Hb Hs Hsc Hlen Hne Hsel.
  pose proof (alias_entry_own _ _ _ Hn) as Hn'.
  apply deploy_stops_in_prepare. unfold prepare. rewrite Hc. cbv zeta.
  rewrite bind_ret_l, Hn', bind_ret_l, Hu. cbn [negb]. rewrite bind_ret_l.
  rewrite Hb, step_ok, (bind_value _ _ _ _ eq_refl).
  rewrite Hs, step_ok, (bind_value _ _ _ _ eq_refl).
  assert (Hch : chooseSmartContract c smartContracts (Js.toLowerCase network)
                = EmptyString).
  { apply choose_falsy; [|assumption]. unfold recorded. rewrite Hn. exact Hsc. }
  rewrite (identify_prompts _ _ _ _ Hch Hne), Hsel.
  rewrite (bind_stop _ _ [Select smartContracts] Cancelled eq_refl).
  reflexivity.
Qed.

Lemma cancelled_selection_changes_nothing_witness :
  deploy Stale.cancelled "testnet" false
  = ([StepOk "Build project"; StepOk "Generate build.json";
      Select ["Foo"; "Baz"]], Cancelled).
Proof.
  apply (cancelled_selection_changes_nothing Stale.cancelled "testnet" false
           Scenario.cfg Scenario.entry ["Foo"; "Baz"]);
    try reflexivity; [simpl; lia | discriminate].
Defined.

(** X9.  A failed build is fatal: when [npm run build] fails, or when the
    scan of the build for contracts throws, the step fails and the process
    exits with code 1, before any prompt, request or write. *)
Theorem failed_build_exits
    (w : World) (network : string) (yes : bool) (c : config)
    (entry : network_entry) :
  w_config w = ReadOk c ->
  networks c !! Js.toLowerCase network = Some entry ->
  truthy_prop (url entry) = true ->
  (w_build w = false ->
   deploy w network yes = ([StepFail "Build project"], Exited 1))
  /\ (w_build w = true -> w_smartContracts w = None ->
      deploy w network yes
      = ([StepOk "Build project"; StepFail "Generate build.json"], Exited 1)).
Proof.
  intros Hc Hn Hu. apply alias_entry_own in Hn. split.
  - intros Hb. apply deploy_stops_in_prepare. unfold prepare. rewrite Hc.
    cbv zeta. rewrite bind_ret_l, Hn, bind_ret_l, Hu. cbn [negb].
    rewrite bind_ret_l, Hb, step_fail.
    rewrite (bind_stop _ _ _ _ eq_refl). reflexivity.
  - intros Hb Hs. apply deploy_stops_in_prepare. unfold prepare. rewrite Hc.
    cbv zeta. rewrite bind_ret_l, Hn, bind_ret_l, Hu. cbn [negb].
    rewrite bind_ret_l, Hb, step_ok, (bind_value _ _ _ _ eq_refl).
    rewrite Hs, step_fail, (bind_stop _ _ _ _ eq_refl). reflexivity.
Qed.

Lemma failed_build_exits_witness :
  deploy (with_build Scenario.world false) "testnet" true
  = ([StepFail "Build project"], Exited 1).
Proof.
  apply (failed_build_exits (with_build Scenario.world false) "testnet" true
           Scenario.cfg Scenario.entry); reflexivity.
Defined.

Lemma in_bind_inv {A B} (m : M A) (k : A -> M B) (e : event) :
  In e (fst (bind m k)) ->
  In e (fst m) \/ exists a, snd m = inl a /\ In e (fst (k a)).
Proof.
  rewrite fst_bind. intros H. apply in_app_or in H as [H | H]; [auto|].
  destruct m as [t [a | o]]; cbn [snd] in *; [eauto | contradiction].
Qed.

Lemma always_not_in {A} (m : M A) (e : event) :
  always (fun e' => e' <> e) m -> ~ In e (fst m).
Proof.
  unfold always. rewrite List.Forall_forall. intros H Hin. exact (H _ Hin eq_refl).
Qed.

(** The first valid entry is answered. *)
Lemma prompt_input_answers (name : string) (validate : string -> option string)
    (f : string -> string) (entries : list string) (val : string) :
  first_valid validate entries = Some val ->
  exists t,
    prompt_input name validate (fun val => ret (f val)) entries
    = (t, inl (answer val (f val))).
Proof.
  induction entries as [|e rest IH]; simpl; [discriminate|].
  destruct (validate e) eqn:E.
  - intros H. destruct (IH H) as (t & ->). eexists. reflexivity.
  - intros [= ->]. eexists. reflexivity.
Qed.

Lemma resolveNonce_requests (w : World) (endpoint feePayer : string) :
  In (Request endpoint (AccountQuery feePayer) 20000)
     (fst (resolveNonce w endpoint feePayer)).
Proof.
  unfold resolveNonce. cbv zeta. apply in_bind_l. unfold call_sendGraphQL.
  apply in_bind_l. left. reflexivity.
Qed.

(** What follows the fee prompt in [prepare], once the prompt is answered. *)
Lemma answered_fee_is_followed_by_query {A} (w : World) (f : string)
    (k : string -> M A) (endpoint feePayer : string)
    (after : string -> value -> M A) :
  first_valid fee_validate (w_fee w) = Some f ->
  (forall fee, fee <> EmptyString ->
     k fee = ((if negb (truthy (VStr fee)) then halt Returned else ret tt) ;;;
              let* nonce := resolveNonce w endpoint feePayer in
              after fee nonce)) ->
  In (Request endpoint (AccountQuery feePayer) 20000)
     (fst (emit (Input "fee") ;;;
           let* fee := prompt_input "fee" fee_validate
                         (fun val => ret (fee_result val)) (w_fee w) in
           k fee)).
Proof.
  intros Hf Hk.
  destruct (prompt_input_answers "fee" fee_validate fee_result _ _ Hf) as (t & E).
  pose proof (fee_answer_not_empty f (first_valid_valid _ _ _ Hf)) as Hne.
  apply in_bind_r with (a := tt); [reflexivity|].
  apply in_bind_r with (a := answer f (fee_result f)); [rewrite E; reflexivity|].
  rewrite (Hk _ Hne).
  apply in_bind_r with (a := tt).
  - cbn [truthy]. apply String.eqb_neq in Hne. rewrite Hne. reflexivity.
  - apply in_bind_l, resolveNonce_requests.
Qed.

Lemma asks_for_account_app (t t' : list event) :
  asks_for_account t' -> asks_for_account (t ++ t').
Proof.
  intros (endpoint & pk & H). exists endpoint, pk. apply in_or_app. auto.
Qed.

Lemma reach_bind {A B} (m : M A) (k : A -> M B) (e : event) :
  ~ In e (fst m) ->
  (forall a, snd m = inl a -> In e (fst (k a)) -> asks_for_account (fst (k a))) ->
  In e (fst (bind m k)) -> asks_for_account (fst (bind m k)).
Proof.
  intros Hm Hk H. apply in_bind_inv in H as [H | (a & Ha & H)]; [contradiction|].
  rewrite fst_bind, Ha. apply asks_for_account_app, (Hk a Ha H).
Qed.

Lemma prepare_asks_for_account (w : World) (network : string) (f : string) :
  first_valid fee_validate (w_fee w) = Some f ->
  In (Input "fee") (fst (prepare w network)) ->
  asks_for_account (fst (prepare w network)).
Proof.
  intros Hf. unfold prepare. cbv zeta.
  repeat lazymatch goal with
         | |- In _ (fst (bind (emit (Input "fee")) _)) -> _ => fail
         | |- In _ (fst (bind _ _)) -> _ =>
             apply reach_bind;
             [ apply always_not_in; always_tac ltac:(try discriminate)
             | intros ? _ ]
         end.
  intros _. eexists _, _.
  eapply answered_fee_is_followed_by_query; [exact Hf | intros; reflexivity].
Qed.

(** X10.  Once the fee prompt is answered, deploy always goes on to the
    account query.  The prompt never answers with the empty string (an entry
    of white space only, which the prompt accepts, comes back as it was
    typed), so that the return of line 262 is never taken. *)
Theorem answered_fee_reaches_the_account_query
    (w : World) (network : string) (yes : bool) (f : string) :
  first_valid fee_validate (w_fee w) = Some f ->
  In (Input "fee") (trace (deploy w network yes)) ->
  answer f (fee_result f) <> EmptyString
  /\ asks_for_account (trace (deploy w network yes)).
Proof.
  intros Hf Hin.
  split; [apply fee_answer_not_empty, (first_valid_valid _ _ _ Hf)|].
  unfold trace, deploy in *. rewrite fst_run in *.
  apply in_bind_inv in Hin as [Hin | (p & Hp & Hin)].
  - rewrite fst_bind. destruct (prepare_asks_for_account w network f Hf Hin)
      as (endpoint & pk & H).
    exists endpoint, pk. apply in_or_app. auto.
  - exfalso. revert Hin. apply always_not_in.
    always_tac ltac:(try discriminate).
Qed.

Lemma answered_fee_reaches_the_account_query_witness :
  asks_for_account
    (trace (deploy (with_fee Scenario.world ["abc"; "   "]) "testnet" true)).
Proof.
  apply (answered_fee_reaches_the_account_query _ "testnet" true "   ");
    [reflexivity | vm_compute; tauto].
Defined.

Lemma deploy_about_key (w : World) (network : string) (yes : bool) :
  Forall (about_key w ("keys/" +:+ Js.toLowerCase network +:+ ".json"))
         (trace (deploy w network yes)).
Proof.
  unfold trace, deploy. apply always_run.
  always_tac ltac:(try (intros file Hfile; split;
                        [intros ? ? [=] | intros ? ? ? [=]];
                        subst; cbn [feePayer memo]; repeat split;
                        congruence)).
Qed.

(** X11.  What deploy signs and what it asks of the network are about one
    key, that of the file keys/<alias>.json: the signature is made with the
    private key of that file, for the fee payer derived from it and with an
    empty memo, and the account whose nonce is queried is that fee payer. *)
Theorem one_key_signs_and_pays
    (w : World) (network : string) (yes : bool) (file : keyfile) :
  w_files w ("keys/" +:+ Js.toLowerCase network +:+ ".json") = Some file ->
  (forall fp key,
      In (Sign fp key) (trace (deploy w network yes)) ->
      key = privateKey file
      /\ feePayer fp = w_derivePublicKey w (privateKey file)
      /\ memo fp = EmptyString)
  /\ (forall endpoint pk t,
        In (Request endpoint (AccountQuery pk) t) (trace (deploy w network yes)) ->
        pk = w_derivePublicKey w (privateKey file)).
Proof.
  intros Hf. pose proof (deploy_about_key w network yes) as H.
  rewrite List.Forall_forall in H. split.
  - intros fp key Hin. exact (proj1 (H _ Hin file Hf) fp key eq_refl).
  - intros endpoint pk t Hin. exact (proj2 (H _ Hin file Hf) endpoint pk t eq_refl).
Qed.

Lemma one_key_signs_and_pays_witness :
  (forall fp key,
      In (Sign fp key) (trace (deploy Scenario.world "testnet" true)) ->
      key = "KEY" /\ feePayer fp = "pub:KEY" /\ memo fp = EmptyString)
  /\ (forall endpoint pk t,
        In (Request endpoint (AccountQuery pk) t)
           (trace (deploy Scenario.world "testnet" true)) ->
        pk = "pub:KEY").
Proof.
  apply (one_key_signs_and_pays Scenario.world "testnet" true
           {| privateKey := "KEY"; publicKey := "pub:KEY" |}).
  reflexivity.
Defined.

(** What [prepare] returns was signed in it. *)
Lemma prepare_signs (w : World) (network : string) (t : list event) (p : prepared) :
  prepare w network = (t, inl p) ->
  exists parties fp key,
    In (Sign fp key) t /\ w_sign w parties fp key = Some (signedParties p).
Proof.
  intros H. unfold prepare in H. cbv zeta in H.
  repeat (apply bind_inv in H as (? & ? & ? & ? & H & ->)).
  cbv [ret] in H. injection H as <- <-. cbn [signedParties].
  match goal with
  | Hs : step "Sign transaction" _ = _ |- _ =>
      cbv [step bind emit ret app] in Hs;
      match type of Hs with
      | context [w_sign w ?pj ?fp ?key] =>
          destruct (w_sign w pj fp key) as [sp|] eqn:E; [|discriminate Hs];
          injection Hs as <- <-; exists pj, fp, key
      end
  end.
  split; [|exact E].
  rewrite !in_app_iff. simpl. tauto.
Qed.

(** X12.  What deploy submits is what the signer returned: the parties of
    every submission request are the result of a signature made earlier in
    the same deploy. *)
Theorem submitted_parties_were_signed
    (w : World) (network : string) (yes : bool)
    (endpoint parties : string) (t : N) :
  In (Request endpoint (ZkAppMutation parties) t) (trace (deploy w network yes)) ->
  exists unsigned fp key,
    In (Sign fp key) (trace (deploy w network yes))
    /\ w_sign w unsigned fp key = Some parties.
Proof.
  intros Hin. unfold trace, deploy in *.
  destruct (prepare w network) as [tp [p | o]] eqn:Hp.
  - destruct (prepare_signs _ _ _ _ Hp) as (unsigned & fp & key & Hs & Hw).
    exists unsigned, fp, key. split.
    + apply in_run. rewrite (bind_value _ _ tp p eq_refl). cbn [fst].
      apply in_or_app. left. exact Hs.
    + assert (Hall : Forall (fun e => forall ep q t', e = Request ep q t' ->
                          is_mutation q = true -> q = ZkAppMutation (signedParties p))
                       (fst (run (let* p0 := (tp, inl p) in
                                  let* confirm := confirmation w yes in
                                  (if negb (String.eqb confirm "yes"
                                            || String.eqb confirm "y")
                                   then halt Returned else ret tt) ;;;
                                  send w p0)))).
      { apply always_run. apply always_bind.
        - unfold always. cbn [fst].
          pose proof (prepare_no_submission w network) as Hn.
          unfold always in Hn. rewrite Hp in Hn. cbn [fst] in Hn.
          eapply List.Forall_impl; [|exact Hn].
          intros e He ep q t' -> Hq. rewrite (He _ _ _ eq_refl) in Hq.
          discriminate Hq.
        - intros p0 [= <-].
          always_tac ltac:(try (intros;
                                match goal with
                                | H : _ = Request _ _ _ |- _ =>
                                    first [ discriminate H
                                          | injection H as <- <- <-; reflexivity ]
                                end)). }
      rewrite List.Forall_forall in Hall.
      specialize (Hall _ Hin _ _ _ eq_refl eq_refl). injection Hall as ->.
      exact Hw.
  - exfalso. rewrite (bind_stop _ _ tp o eq_refl) in Hin. cbn [run fst] in Hin.
    pose proof (prepare_no_submission w network) as Hn.
    unfold always in Hn. rewrite Hp in Hn. cbn [fst] in Hn.
    rewrite List.Forall_forall in Hn.
    specialize (Hn _ Hin _ _ _ eq_refl). discriminate Hn.
Qed.

Lemma submitted_parties_were_signed_witness :
  exists unsigned fp key,
    In (Sign fp key) (trace (deploy Scenario.world "testnet" true))
    /\ w_sign Scenario.world unsigned fp key = Some "signed:parties:Foo".
Proof.
  apply (submitted_parties_were_signed Scenario.world "testnet" true
           "https://example/graphql" "signed:parties:Foo" 20000).
  vm_compute. tauto.
Defined.

Lemma failed_query_has_no_data (b : network_behaviour) :
  ~ answered b -> get_opt (sendGraphQL b) "data" = VUndefined.
Proof.
  intros Hna. unfold sendGraphQL, fetch.
  destruct b as [ms r | ms err |]; try reflexivity.
  - destruct (ms <? timeout_ms)%N eqn:Et; [|reflexivity].
    destruct (body r) as [json|] eqn:Eb; [|reflexivity].
    destruct (ok r) eqn:Eo.
    + exfalso. apply Hna. exists ms, r, json.
      repeat split; try assumption. apply N.ltb_lt, Et.
    + cbn [negb]. destruct (get json "errors"); reflexivity.
  - destruct (ms <? timeout_ms)%N; reflexivity.
Qed.

Lemma nonce_result_trim (val : string) :
  nonce_validate val = None -> nonce_result val = Js.trim val.
Proof.
  unfold nonce_validate. destruct (String.eqb val EmptyString); [discriminate|].
  destruct (Js.isNaN val) eqn:E; [discriminate|].
  intros _. apply result_is_trim, E.
Qed.

(** X13.  Whatever makes the account query fail (a transport failure, the
    timeout, a status that is not a success, a body that is not JSON), the
    nonce is asked of the operator, and the nonce then used is the first
    entry that validates, trimmed; an entry of white space only, which
    trims to nothing, is used as it was typed. *)
Theorem failed_account_query_asks_the_operator
    (w : World) (endpoint feePayer : string) :
  ~ answered (w_net w endpoint (AccountQuery feePayer)) ->
  exists t r,
    resolveNonce w endpoint feePayer
    = (Request endpoint (AccountQuery feePayer) 20000 :: Input "nonce" :: t, r)
    /\ forall n, r = inl n ->
       exists entry,
         first_valid nonce_validate (w_nonce w) = Some entry
         /\ n = VStr (if String.eqb (Js.trim entry) EmptyString
                      then entry else Js.trim entry).
Proof.
  intros Hna.
  assert (Hfalsy : truthy (get_opt (get_opt (get_opt
            (sendGraphQL (w_net w endpoint (AccountQuery feePayer)))
            "data") "account") "nonce") = false).
  { rewrite (failed_query_has_no_data _ Hna). reflexivity. }
  rewrite (resolveNonce_falls_back _ _ _ Hfalsy).
  destruct (prompt_input "nonce" nonce_validate
              (fun val => ret (nonce_result val)) (w_nonce w))
    as [t [entered | o]] eqn:E.
  - eexists _, _. split; [reflexivity|]. intros n [= <-].
    destruct (prompt_input_value "nonce" nonce_validate nonce_result
                (w_nonce w) entered) as (entry & Hv & ->);
      [rewrite E; reflexivity|].
    exists entry. split; [assumption|].
    rewrite (nonce_result_trim entry (first_valid_valid _ _ _ Hv)).
    reflexivity.
  - eexists _, _. split; [reflexivity|]. intros n [=].
Qed.

Lemma failed_account_query_asks_the_operator_witness :
  exists t r,
    resolveNonce Slow.world "https://example/graphql" "pub:KEY"
    = (Request "https://example/graphql" (AccountQuery "pub:KEY") 20000
       :: Input "nonce" :: t, r)
    /\ forall n, r = inl n ->
       exists entry,
         first_valid nonce_validate (w_nonce Slow.world) = Some entry
         /\ n = VStr (if String.eqb (Js.trim entry) EmptyString
                      then entry else Js.trim entry).
Proof.
  apply (failed_account_query_asks_the_operator Slow.world).
  intros (ms & r & json & H & _). discriminate H.
Defined.

(** ** The submission and the account query: what sendGraphQL returns *)

(** X14.  sendGraphQL hands the body over unchanged when the answer
    came in time, with a success status and a JSON body; in every other case
    (transport failure, timeout, a body that is not JSON, a status that is not
    a success, even with a null body) it returns an object whose kind is
    error. *)
Theorem sendGraphQL_classifies (b : network_behaviour) :
  (forall ms r json,
      b = Responds ms r -> (ms < timeout_ms)%N -> ok r = true ->
      body r = Some json -> sendGraphQL b = json)
  /\ (~ answered b -> get (sendGraphQL b) "kind" = inr (VStr "error")).
Proof.
  split.
  - intros ms r json -> Hms Hok Hbody. unfold sendGraphQL, fetch.
    apply N.ltb_lt in Hms. rewrite Hms, Hbody, Hok. reflexivity.
  - intros Hna. unfold sendGraphQL, fetch.
    destruct b as [ms r | ms err |]; try reflexivity.
    + destruct (ms <? timeout_ms)%N eqn:Et; [|reflexivity].
      destruct (body r) as [json|] eqn:Eb; [|reflexivity].
      destruct (ok r) eqn:Eo.
      * exfalso. apply Hna. exists ms, r, json.
        repeat split; try assumption. apply N.ltb_lt, Et.
      * cbn [negb]. destruct (get json "errors"); reflexivity.
    + destruct (ms <? timeout_ms)%N; reflexivity.
Qed.

Lemma sendGraphQL_classifies_witness :
  sendGraphQL (Responds 150%N (Scenario.json_ok (Scenario.nonce_reply (VStr "3"))))
  = Scenario.nonce_reply (VStr "3")
  /\ get (sendGraphQL
            (Responds 150%N {| status := 500; statusText := "Internal Server Error";
                             body := Some VNull |})) "kind"
     = inr (VStr "error").
Proof.
  split.
  - apply (proj1 (sendGraphQL_classifies _) 150%N
             (Scenario.json_ok (Scenario.nonce_reply (VStr "3"))));
      reflexivity.
  - apply (proj2 (sendGraphQL_classifies _)).
    intros (ms & r & json & [= <- <-] & _ & Hok & _). discriminate Hok.
Defined.

(** ** Aliases and project names *)

Lemma has_upper_chars (s : string) :
  Js.has_upper s = existsb Js.is_upper (Js.chars s).
Proof. induction s as [|c s IH]; simpl; [reflexivity|]. rewrite IH. reflexivity. Qed.

Lemma existsb_false_incl {A} (p : A -> bool) (l l' : list A) :
  (forall x, In x l' -> In x l) -> existsb p l = false -> existsb p l' = false.
Proof.
  intros Hincl H. apply not_true_is_false. intros Ht.
  apply existsb_exists in Ht as (x & Hx & Hp).
  assert (Hex : existsb p l = true) by (apply existsb_exists; eauto).
  congruence.
Qed.

Lemma trim_start_in (l : list ascii) (c : ascii) :
  In c (Js.trim_start l) -> In c l.
Proof.
  induction l as [|x l IH]; simpl; [auto|].
  destruct (Js.is_space x); simpl; auto.
Qed.

Lemma trim_in (l : list ascii) (c : ascii) :
  In c (Js.trim_end (Js.trim_start l)) -> In c l.
Proof.
  unfold Js.trim_end. intros H. apply in_rev in H.
  apply trim_start_in in H. apply in_rev in H. apply trim_start_in, H.
Qed.

Lemma trim_no_upper (s : string) :
  Js.has_upper s = false -> Js.has_upper (Js.trim s) = false.
Proof.
  rewrite !has_upper_chars. unfold Js.trim. rewrite chars_str.
  apply existsb_false_incl. apply trim_in.
Qed.

Lemma replace_space_upper (s : string) :
  Js.has_upper (replace_space s) = Js.has_upper s.
Proof.
  induction s as [|c s IH]; simpl; [reflexivity|].
  destruct (Js.code c =? 32)%N eqn:E; simpl.
  - apply N.eqb_eq in E. replace c with " "%char; [reflexivity|].
    rewrite <- (ascii_N_embedding c). unfold Js.code in E. rewrite E. reflexivity.
  - rewrite IH. reflexivity.
Qed.

Lemma normal_no_upper (val : string) : Js.has_upper (Alias.normal val) = false.
Proof.
  unfold Alias.normal. rewrite replace_space_upper.
  apply trim_no_upper, toLowerCase_no_upper.
Qed.

Lemma validate_accepts (c : config) (val : string) :
  Alias.validate c val = None ->
  Alias.normal val <> EmptyString /\ networks c !! Alias.normal val = None.
Proof.
  unfold Alias.validate. cbv zeta.
  destruct (String.eqb_spec (Alias.normal val) EmptyString) as [|Hne];
    [discriminate|].
  destruct (bool_decide (is_Some (networks c !! Alias.normal val))) eqn:Ek;
    [discriminate|].
  intros _. apply bool_decide_eq_false in Ek.
  split; [exact Hne|].
  destruct (networks c !! Alias.normal val) eqn:E; [|reflexivity].
  exfalso. apply Ek. eauto.
Qed.

(** X15.  A name the deployAlias prompt of zk config accepts is stored in a
    normal form that is not empty, is not yet an alias of the configuration,
    and holds no uppercase letter, so that lowercasing leaves it as it is. *)
Theorem accepted_alias_is_normal (c : config) (val : string) :
  Alias.validate c val = None ->
  Alias.result val <> EmptyString
  /\ networks c !! Alias.result val = None
  /\ Js.has_upper (Alias.result val) = false
  /\ Js.toLowerCase (Alias.result val) = Alias.result val.
Proof.
  intros Hv. destruct (validate_accepts c val Hv) as [Hne Hnew].
  unfold Alias.result. repeat split; try assumption.
  - apply normal_no_upper.
  - apply toLowerCase_fixed, normal_no_upper.
Qed.

Lemma accepted_alias_is_normal_witness :
  Alias.result " My Net " = "my-net"
  /\ networks Scenario.cfg !! Alias.result " My Net " = None.
Proof.
  split; [reflexivity|].
  apply (accepted_alias_is_normal Scenario.cfg " My Net "). reflexivity.
Defined.

(** X16.  Adding an alias with zk config never replaces an existing one: the
    prompt refuses a name that is already an alias, so every alias of the
    configuration keeps its entry. *)
Theorem adding_an_alias_keeps_the_others
    (c : config) (val url fee alias : string) (e : network_entry) :
  Alias.validate c val = None ->
  networks c !! alias = Some e ->
  networks (Alias.add c (Alias.result val) url fee) !! alias = Some e.
Proof.
  intros Hv He. destruct (validate_accepts c val Hv) as [_ Hnew].
  unfold Alias.add, Alias.result.
  destruct (_ && _); [exact He|]. cbn [networks].
  rewrite lookup_insert_ne; [exact He|].
  intros <-. congruence.
Qed.

Lemma adding_an_alias_keeps_the_others_witness :
  networks (Alias.add Scenario.cfg (Alias.result "Main Net") "https://m/graphql" "0.1")
    !! "testnet" = Some Scenario.entry.
Proof.
  apply adding_an_alias_keeps_the_others; reflexivity.
Defined.

Lemma add_stores (c : config) (deployAlias url fee : string) :
  deployAlias <> "__proto__" ->
  networks (Alias.add c deployAlias url fee) !! deployAlias
  = Some (Alias.as_network_entry (Alias.new_entry deployAlias url fee)).
Proof.
  intros Hne. unfold Alias.add. apply String.eqb_neq in Hne. rewrite Hne.
  cbn [andb networks]. apply lookup_insert_eq.
Qed.

Lemma add_proto (c : config) (url fee : string) :
  networks c !! "__proto__" = None -> Alias.add c "__proto__" url fee = c.
Proof.
  intros Hn. unfold Alias.add. rewrite Hn. reflexivity.
Qed.

(** X17.  An alias made by zk config can be deployed, and its key file and
    keyPath agree: whatever letter case the operator types the alias in,
    deploy passes the checks of the alias and of its url and starts the
    build, and the key file it reads is the file zk config wrote the key pair
    to, which is the one keyPath names.  The one name apart is __proto__,
    which the prompt accepts: the assignment of line 162 then sets the
    prototype instead of a property, the configuration written is the one
    read, and deploying the alias reports that no url is specified. *)
Theorem configured_alias_reads_its_key
    (c c' : config) (val u fee : string)
    (w : World) (network : string) (yes : bool) :
  Alias.validate c val = None ->
  Alias.configure c (Alias.result val) u fee = Some c' ->
  w_config w = ReadOk c' ->
  Js.toLowerCase network = Js.toLowerCase (Alias.result val) ->
  (Alias.result val <> "__proto__" ->
   hd_error (trace (deploy w network yes))
   = Some (if w_build w then StepOk "Build project" else StepFail "Build project")
   /\ exists entry,
        networks c' !! Alias.result val = Some entry
        /\ forall path,
             In (ReadKey path) (trace (deploy w network yes)) ->
             path = Alias.key_file (Alias.result val)
             /\ keyPath entry = Some path)
  /\ (Alias.result val = "__proto__" ->
      c' = c /\ deploy w network yes = (msgs_no_url, Returned)).
Proof.
  intros Hval Hconf Hc Hlow. unfold Alias.result in *.
  destruct (validate_accepts c val Hval) as [_ Hnew].
  rewrite (toLowerCase_fixed _ (normal_no_upper val)) in Hlow.
  unfold Alias.configure in Hconf.
  destruct (String.eqb_spec (Alias.normal val) EmptyString) as [|_];
    [discriminate|].
  destruct (String.eqb_spec u EmptyString) as [|Hu]; [discriminate|].
  destruct (String.eqb fee EmptyString); [discriminate|].
  cbn [orb] in Hconf. injection Hconf as <-.
  split.
  - intros Hne. pose proof (add_stores c _ u fee Hne) as He. split.
    + apply (deploy_reaches_build w network yes _
               (Alias.as_network_entry (Alias.new_entry (Alias.normal val) u fee))
               Hc).
      * rewrite Hlow. exact He.
      * cbn. destruct (String.eqb_spec u EmptyString);
          [contradiction | reflexivity].
    + eexists. split; [exact He|].
      intros path Hin.
      pose proof (deploy_reads_alias_key w network yes) as H.
      rewrite List.Forall_forall in H. rewrite (H _ Hin path eq_refl), Hlow.
      split; reflexivity.
  - intros Hp. rewrite Hp in *. rewrite (add_proto c u fee Hnew) in *.
    split; [reflexivity|].
    apply (deploy_no_url w network yes c inherited_entry);
      [assumption | | reflexivity].
    rewrite Hlow. apply alias_entry_inherited; [assumption | reflexivity].
Qed.

Lemma configured_alias_reads_its_key_witness :
  hd_error (trace (deploy
                     (with_config Scenario.world
                        (ReadOk (Alias.add Scenario.cfg "main-net"
                                   "https://m/graphql" "0.1")))
                     "MAIN-net" true))
  = Some (StepOk "Build project")
  /\ deploy Scenario.world "__PROTO__" true = (msgs_no_url, Returned).
Proof.
  split.
  - destruct (configured_alias_reads_its_key Scenario.cfg
                (Alias.add Scenario.cfg "main-net" "https://m/graphql" "0.1")
                "Main Net" "https://m/graphql" "0.1"
                (with_config Scenario.world
                   (ReadOk (Alias.add Scenario.cfg "main-net"
                              "https://m/graphql" "0.1")))
                "MAIN-net" true) as [H _]; [reflexivity ..|].
    destruct H as [H _]; [discriminate | exact H].
  - destruct (configured_alias_reads_its_key Scenario.cfg Scenario.cfg
                "__proto__" "https://m/graphql" "0.1"
                Scenario.world "__PROTO__" true) as [_ H]; [reflexivity ..|].
    destruct H as [_ H]; [reflexivity | exact H].
Defined.




